(** * foundry-stack: the credential and session lifecycle engine

    A shallow embedding of [src/services/AuthService.js]: refresh-token
    issuance, rotation, reuse detection with cascade revocation, logout,
    and the password / second-factor login flow that feeds it.

    Tables are finite maps keyed by their unique column, every
    [await prisma...] call is one atomic action on the tables, and the
    service methods are written in a small state-and-exception monad so
    that they read like the asynchronous JavaScript they embed. *)

From Stdlib Require Import ZArith.
From stdpp Require Import gmap strings list fin_maps.

#[local] Open Scope string_scope.

(* ===================================================================== *)
(** * Errors and the program monad                                        *)
(* ===================================================================== *)

(** The error classes of [middleware/errorHandler.js] that the service
    throws, plus the errors the Prisma client raises by itself (unique
    constraint [P2002], record not found [P2025], malformed query). *)
Inductive AppError : Type :=
  | ValidationError (msg : string)
  | UnauthorizedError (msg : string)
  | ConflictError (msg : string)
  | PrismaError (code : string).

Inductive Outcome (A : Type) : Type :=
  | Return (a : A)
  | Throw (e : AppError).
Arguments Return {A} a.
Arguments Throw {A} e.

(** An asynchronous method over a store [S]: it may not settle at all
    ([None]: the recursion of [revokeFamily] ran out of fuel), or settle
    with a value or a thrown error, leaving a new store. *)
Definition Prog (S A : Type) : Type := S → option (Outcome A * S).

Definition ret {S A} (a : A) : Prog S A := λ s, Some (Return a, s).

Definition throw {S A} (e : AppError) : Prog S A := λ s, Some (Throw e, s).

Definition pending {S A} : Prog S A := λ _, None.

Definition bind {S A B} (m : Prog S A) (k : A → Prog S B) : Prog S B :=
  λ s, match m s with
       | Some (Return a, s') => k a s'
       | Some (Throw e, s') => Some (Throw e, s')
       | None => None
       end.

(** [try { m } catch (err) { h err }] *)
Definition try_catch {S A} (m : Prog S A) (h : AppError → Prog S A) : Prog S A :=
  λ s, match m s with
       | Some (Throw e, s') => h e s'
       | r => r
       end.

Notation "'await' x ← m ; k" := (bind m (λ x, k))
  (at level 10, x name, m at level 100, k at level 200,
   format "'[v' 'await'  x  ←  m ; '/' k ']'").
Notation "'await_' m ; k" := (bind m (λ _, k))
  (at level 10, m at level 100, k at level 200,
   format "'[v' 'await_'  m ; '/' k ']'").

(* ===================================================================== *)
(** * Signed tokens (jsonwebtoken)                                        *)
(* ===================================================================== *)

(** The three claim sets the service signs: [issueTokens] signs the first
    two, [signTemp] the third.  Only refresh tokens carry [jti] and [did]. *)
Inductive Payload : Type :=
  | AccessClaims (sub : string)
  | RefreshClaims (sub jti did : string)
  | TempClaims (sub : string).

Definition payload_sub (p : Payload) : string :=
  match p with
  | AccessClaims sub | RefreshClaims sub _ _ | TempClaims sub => sub
  end.

(** [payload.jti]: [undefined] on access and temp tokens. *)
Definition payload_jti (p : Payload) : option string :=
  match p with
  | RefreshClaims _ jti _ => Some jti
  | _ => None
  end.

(** A bearer string.  [signed] tells whether it carries a signature made
    with [JWT_SECRET]; a forged or malformed string has [signed = false].
    [iat] and [exp] are in seconds. *)
Record Jwt : Type := {
  claims : Payload;
  iat : Z;
  exp : Z;
  signed : bool
}.

(** What the environment hands one request: the reading of [Date.now()]
    (milliseconds) and the identifier [randomUUID()] draws. *)
Record Env : Type := { now : Z; uuid : string }.

Definition seconds (ms : Z) : Z := (ms / 1000)%Z.

(** [jwt.sign(payload, JWT_SECRET, { expiresIn })] *)
Definition jwt_sign (p : Payload) (expiresIn : Z) (ms : Z) : Jwt :=
  {| claims := p; iat := seconds ms; exp := (seconds ms + expiresIn)%Z; signed := true |}.

(** [jwt.verify(token, JWT_SECRET)]: [None] when it throws (bad signature,
    malformed, or [exp] reached). *)
Definition jwt_verify (t : Jwt) (ms : Z) : option Payload :=
  if signed t && (seconds ms <? exp t)%Z then Some (claims t) else None.

(** [jwt.decode(token)]: the claims, unchecked. *)
Definition jwt_decode (t : Jwt) : Payload := claims t.

Definition ACCESS_TTL : Z := (15 * 60)%Z.
Definition REFRESH_TTL_SECONDS : Z := (30 * 24 * 60 * 60)%Z.
Definition TEMP_TTL : Z := (5 * 60)%Z.

Record TokenPair : Type := { accessToken : Jwt; refreshToken : Jwt }.

(* ===================================================================== *)
(** * The Session table                                                   *)
(* ===================================================================== *)

(** One row of ["Session"].  The unique column [refreshJti] is the key of
    the table below; [id] and [createdAt] are never read by the service. *)
Record Session : Type := {
  userId : string;
  deviceId : string;
  revoked : bool;
  replacedBy : option string;
  expiresAt : Z
}.

Abbreviation Sessions := (gmap string Session).

(** The [data] of an update: a field that is left out (or [undefined])
    stays as it is. *)
Record SessionData : Type := {
  data_revoked : option bool;
  data_replacedBy : option string
}.

Definition apply_data (d : SessionData) (s : Session) : Session :=
  {| userId := userId s;
     deviceId := deviceId s;
     revoked := match data_revoked d with Some b => b | None => revoked s end;
     replacedBy := match data_replacedBy d with Some j => Some j | None => replacedBy s end;
     expiresAt := expiresAt s |}.

(** [prisma.session.findUnique({ where: { refreshJti } })] *)
Definition session_findUnique (jti : string) : Prog Sessions (option Session) :=
  λ db, Some (Return (db !! jti), db).

(** [prisma.session.create({ data })]: the unique index on [refreshJti]
    rejects a second row with the same identifier.  (The foreign key to
    ["User"] is not modelled: this service never deletes a user.) *)
Definition session_create (jti : string) (row : Session) : Prog Sessions unit :=
  λ db, match db !! jti with
        | Some _ => Some (Throw (PrismaError "P2002"), db)
        | None => Some (Return (), <[jti := row]> db)
        end.

(** [prisma.session.update({ where: { refreshJti }, data })]: unconditional
    on the row's current state; throws when no row matches. *)
Definition session_update (jti : string) (d : SessionData) : Prog Sessions unit :=
  λ db, match db !! jti with
        | Some s => Some (Return (), <[jti := apply_data d s]> db)
        | None => Some (Throw (PrismaError "P2025"), db)
        end.

(** [prisma.session.updateMany({ where, data })], resolving to
    [{ count }]. *)
Definition session_updateMany (where_ : Session → bool) (d : SessionData)
  : Prog Sessions nat :=
  λ db, Some (Return (size (filter (λ kv, where_ kv.2 = true) db)),
              (λ s, if where_ s then apply_data d s else s) <$> db).

(* ===================================================================== *)
(** * AuthService: token issuance, rotation, revocation                   *)
(* ===================================================================== *)

(** [issueTokens(userId, deviceId)] *)
Definition issueTokens (env : Env) (uid did : string) : Prog Sessions TokenPair :=
  let jti := uuid env in
  let accessToken := jwt_sign (AccessClaims uid) ACCESS_TTL (now env) in
  let refreshToken := jwt_sign (RefreshClaims uid jti did) REFRESH_TTL_SECONDS (now env) in
  let expiresAt := (now env + REFRESH_TTL_SECONDS * 1000)%Z in
  await_ session_create jti
    {| userId := uid; deviceId := did; revoked := false;
       replacedBy := None; expiresAt := expiresAt |};
  ret {| accessToken := accessToken; refreshToken := refreshToken |}.

(** [revokeFamily(jti)]: marks the row revoked, then follows [replacedBy].
    The JavaScript recursion has no bound; [fuel] counts the calls. *)
Fixpoint revokeFamily (fuel : nat) (jti : string) : Prog Sessions unit :=
  match fuel with
  | O => pending
  | S fuel' =>
      await session ← session_findUnique jti;
      match session with
      | None => ret ()
      | Some session =>
          await_ session_update jti {| data_revoked := Some true; data_replacedBy := None |};
          match replacedBy session with
          | Some next => revokeFamily fuel' next
          | None => ret ()
          end
      end
  end.

(** [rotateRefresh(refreshToken)].  The argument is [None] for a falsy
    value (missing, [null], the empty string). *)
Definition rotateRefresh (fuel : nat) (env : Env) (token : option Jwt)
  : Prog Sessions TokenPair :=
  match token with
  | None => throw (ValidationError "Refresh token is required")
  | Some token =>
      match jwt_verify token (now env) with
      | None => throw (UnauthorizedError "Invalid or expired refresh token")
      | Some (RefreshClaims sub jti did) =>
          await session ← session_findUnique jti;
          match session with
          | None => throw (UnauthorizedError "Session not found")
          | Some session =>
              if revoked session then
                await_ revokeFamily fuel jti;
                throw (UnauthorizedError "Token has been revoked")
              else
                await newTokens ← issueTokens env sub did;
                await_ session_update jti
                  {| data_revoked := Some true;
                     data_replacedBy := payload_jti (jwt_decode (refreshToken newTokens)) |};
                ret newTokens
          end
      | Some _ => throw (UnauthorizedError "Invalid token type")
      end
  end.

Record LogoutResult : Type := { success : bool }.

(** [logout(refreshToken)]: no type check on the payload; every failure
    inside the [try] block is swallowed. *)
Definition logout (env : Env) (token : option Jwt) : Prog Sessions LogoutResult :=
  match token with
  | None => ret {| success := true |}
  | Some token =>
      await_ try_catch
        (match jwt_verify token (now env) with
         | None => throw (UnauthorizedError "jwt.verify")
         | Some payload =>
             match payload_jti payload with
             | None => throw (PrismaError "validation")
             | Some jti =>
                 session_update jti {| data_revoked := Some true; data_replacedBy := None |}
             end
         end)
        (λ _, ret ());
      ret {| success := true |}
  end.

Record LogoutAllResult : Type := { all_success : bool; revokedSessions : nat }.

(** [logoutAllDevices(userId)] *)
Definition logoutAllDevices (uid : string) : Prog Sessions LogoutAllResult :=
  await count ← session_updateMany
      (λ s, bool_decide (userId s = uid) && negb (revoked s))
      {| data_revoked := Some true; data_replacedBy := None |};
  ret {| all_success := true; revokedSessions := count |}.

(* ===================================================================== *)
(** * Sequences of calls on the session registry                          *)
(* ===================================================================== *)

(** The operations of the rotation protocol on the Session table (the
    periodic [cleanupExpiredSessions], which only deletes expired rows, is
    not part of it). *)
Inductive Op : Type :=
  | OpIssueTokens (uid did : string)
  | OpRotateRefresh (token : option Jwt)
  | OpRevokeFamily (jti : string)
  | OpLogout (token : option Jwt)
  | OpLogoutAllDevices (uid : string).

(** One request: the operation, what the environment hands it, and the
    number of nested [revokeFamily] calls it is given time for. *)
Record Call : Type := { call_fuel : nat; call_env : Env; call_op : Op }.

(** The table a call leaves behind, whatever it resolved or rejected with. *)
Definition after {A} (r : option (Outcome A * Sessions)) : option Sessions :=
  snd <$> r.

Definition run_call (c : Call) (db : Sessions) : option Sessions :=
  match call_op c with
  | OpIssueTokens uid did => after (issueTokens (call_env c) uid did db)
  | OpRotateRefresh token => after (rotateRefresh (call_fuel c) (call_env c) token db)
  | OpRevokeFamily jti => after (revokeFamily (call_fuel c) jti db)
  | OpLogout token => after (logout (call_env c) token db)
  | OpLogoutAllDevices uid => after (logoutAllDevices uid db)
  end.

(** Calls served one after the other, each running to completion. *)
Fixpoint exec (calls : list Call) (db : Sessions) : option Sessions :=
  match calls with
  | [] => Some db
  | c :: calls' =>
      match run_call c db with
      | Some db' => exec calls' db'
      | None => None
      end
  end.

(** The tables the service can be in, starting from the empty table. *)
Definition reachable (db : Sessions) : Prop :=
  ∃ calls, exec calls ∅ = Some db.

(** [follows db j k]: row [k] is met when walking [replacedBy] forward
    from row [j] (both rows exist; [j] itself is met first). *)
Inductive follows (db : Sessions) : string → string → Prop :=
  | follows_here j s :
      db !! j = Some s → follows db j j
  | follows_next j s next k :
      db !! j = Some s → replacedBy s = Some next →
      follows db next k → follows db j k.

(** The walk from [j] comes to an end: at a missing row or at a row
    without successor. *)
Inductive walk_ends (db : Sessions) : string → Prop :=
  | walk_missing j :
      db !! j = None → walk_ends db j
  | walk_tip j s :
      db !! j = Some s → replacedBy s = None → walk_ends db j
  | walk_next j s next :
      db !! j = Some s → replacedBy s = Some next →
      walk_ends db next → walk_ends db j.

(** A row that is still active has no successor. *)
Definition active_has_no_successor (db : Sessions) : Prop :=
  ∀ j s, db !! j = Some s → revoked s = false → replacedBy s = None.

Definition well_formed (db : Sessions) : Prop :=
  active_has_no_successor db ∧ ∀ j, walk_ends db j.

(* ===================================================================== *)
(** * rotateRefresh between its awaits                                    *)
(* ===================================================================== *)

(** Where a [rotateRefresh] call stands.  Each step below is what the call
    does from one resumption to its next suspension on the database:
    - [Presented]: nothing done yet;
    - [Cascading]: [findUnique] returned a revoked row ([revokeFamily] is
      taken as one step);
    - [Issuing]: [findUnique] returned a row that was not revoked;
    - [Retiring]: [issueTokens] resolved, the old row is not yet updated;
    - [Settled]: the promise resolved or rejected. *)
Inductive RotateTask : Type :=
  | Presented (token : option Jwt)
  | Cascading (jti : string)
  | Issuing (sub jti did : string)
  | Retiring (jti : string) (newTokens : TokenPair)
  | Settled (r : Outcome TokenPair).

(** A task's next state from what its database action returned. *)
Definition resume {A} (k : A → RotateTask) (r : option (Outcome A * Sessions))
  : option (RotateTask * Sessions) :=
  match r with
  | Some (Return a, db) => Some (k a, db)
  | Some (Throw e, db) => Some (Settled (Throw e), db)
  | None => None
  end.

Definition rotate_step (fuel : nat) (env : Env) (t : RotateTask) (db : Sessions)
  : option (RotateTask * Sessions) :=
  match t with
  | Presented None =>
      Some (Settled (Throw (ValidationError "Refresh token is required")), db)
  | Presented (Some token) =>
      match jwt_verify token (now env) with
      | None =>
          Some (Settled (Throw (UnauthorizedError "Invalid or expired refresh token")), db)
      | Some (RefreshClaims sub jti did) =>
          match db !! jti with
          | None => Some (Settled (Throw (UnauthorizedError "Session not found")), db)
          | Some session =>
              if revoked session then Some (Cascading jti, db)
              else Some (Issuing sub jti did, db)
          end
      | Some _ => Some (Settled (Throw (UnauthorizedError "Invalid token type")), db)
      end
  | Cascading jti =>
      resume (λ _, Settled (Throw (UnauthorizedError "Token has been revoked")))
             (revokeFamily fuel jti db)
  | Issuing sub jti did =>
      resume (λ newTokens, Retiring jti newTokens) (issueTokens env sub did db)
  | Retiring jti newTokens =>
      resume (λ _, Settled (Return newTokens))
             (session_update jti
                {| data_revoked := Some true;
                   data_replacedBy := payload_jti (jwt_decode (refreshToken newTokens)) |} db)
  | Settled r => Some (Settled r, db)
  end.

(** A task resumed [n] times in a row (it has settled after three). *)
Fixpoint rotate_run (n fuel : nat) (env : Env) (t : RotateTask) (db : Sessions)
  : option (RotateTask * Sessions) :=
  match n with
  | O => Some (t, db)
  | S n' =>
      match rotate_step fuel env t db with
      | Some (t', db') => rotate_run n' fuel env t' db'
      | None => None
      end
  end.

(** Two calls in flight on one table.  The schedule names, action by
    action, which of the two the event loop resumes. *)
Inductive Side : Type := First | Second.

Record Race : Type := {
  task1 : RotateTask;
  task2 : RotateTask;
  table : Sessions
}.

Fixpoint interleave (schedule : list Side) (fuel : nat) (env1 env2 : Env) (r : Race)
  : option Race :=
  match schedule with
  | [] => Some r
  | First :: rest =>
      match rotate_step fuel env1 (task1 r) (table r) with
      | Some (t, db) =>
          interleave rest fuel env1 env2 {| task1 := t; task2 := task2 r; table := db |}
      | None => None
      end
  | Second :: rest =>
      match rotate_step fuel env2 (task2 r) (table r) with
      | Some (t, db) =>
          interleave rest fuel env1 env2 {| task1 := task1 r; task2 := t; table := db |}
      | None => None
      end
  end.

Definition fresh_pair (t : RotateTask) : option TokenPair :=
  match t with
  | Settled (Return p) => Some p
  | _ => None
  end.

Definition rejected (t : RotateTask) : option AppError :=
  match t with
  | Settled (Throw e) => Some e
  | _ => None
  end.

(* ===================================================================== *)
(** * Users, devices and the objects handed back to callers               *)
(* ===================================================================== *)

(** Plain JavaScript values, as far as the rows of this schema need them. *)
#[warnings="-register-all"]
Inductive JsValue : Type :=
  | JsNull
  | JsBool (b : bool)
  | JsNumber (n : Z)
  | JsString (s : string)
  | JsDate (ms : Z)
  | JsArray (items : list JsValue)
  | JsObj (fields : list (string * JsValue)).

(** A plain object: its own enumerable properties. *)
Abbreviation JsObject := (gmap string JsValue).

Definition nullable {A} (f : A → JsValue) (x : option A) : JsValue :=
  match x with Some a => f a | None => JsNull end.

(** One row of ["User"], column by column ([lat] and [lng] are never
    read or written here; they stay [NULL] in the rows this service
    creates). *)
Record User : Type := {
  id : string;
  email : string;
  passwordHash : string;
  displayName : string;
  age : Z;
  bio : string;
  tags : list string;
  photoUrl : string;
  lat : option Z;
  lng : option Z;
  stripeCustomerId : option string;
  twoFAEnabled : bool;
  totpSecret : option string;
  reputation : Z;
  isVerified : bool;
  createdAt : Z;
  updatedAt : Z
}.

(** The object the Prisma client builds from a ["User"] row: one property
    per column. *)
Definition user_object (u : User) : JsObject :=
  list_to_map
    [ ("id", JsString (id u));
      ("email", JsString (email u));
      ("passwordHash", JsString (passwordHash u));
      ("displayName", JsString (displayName u));
      ("age", JsNumber (age u));
      ("bio", JsString (bio u));
      ("tags", JsArray (JsString <$> tags u));
      ("photoUrl", JsString (photoUrl u));
      ("lat", nullable JsNumber (lat u));
      ("lng", nullable JsNumber (lng u));
      ("stripeCustomerId", nullable JsString (stripeCustomerId u));
      ("twoFAEnabled", JsBool (twoFAEnabled u));
      ("totpSecret", nullable JsString (totpSecret u));
      ("reputation", JsNumber (reputation u));
      ("isVerified", JsBool (isVerified u));
      ("createdAt", JsDate (createdAt u));
      ("updatedAt", JsDate (updatedAt u)) ].

(** One row of ["Device"]; the unique pair [(userId, deviceId)] is the
    key of the table. *)
Record Device : Type := {
  platform : string;
  userAgent : string;
  lastSeenAt : Z
}.

Record DB : Type := {
  users : gmap string User;
  devices : gmap (string * string) Device;
  sessions : Sessions;
  subscriptions : gmap string (list (string * JsValue))
}.

Definition set_users (f : gmap string User → gmap string User) (db : DB) : DB :=
  {| users := f (users db); devices := devices db;
     sessions := sessions db; subscriptions := subscriptions db |}.

Definition set_devices
    (f : gmap (string * string) Device → gmap (string * string) Device) (db : DB) : DB :=
  {| users := users db; devices := f (devices db);
     sessions := sessions db; subscriptions := subscriptions db |}.

Definition set_sessions (ss : Sessions) (db : DB) : DB :=
  {| users := users db; devices := devices db;
     sessions := ss; subscriptions := subscriptions db |}.

(** A method of the session registry, run on the whole database. *)
Definition on_sessions {A} (m : Prog Sessions A) : Prog DB A :=
  λ db, match m (sessions db) with
        | Some (r, ss) => Some (r, set_sessions ss db)
        | None => None
        end.

(** [String.prototype.toLowerCase] on the ASCII letters. *)
Definition lower_ascii (c : Ascii.ascii) : Ascii.ascii :=
  let n := Ascii.nat_of_ascii c in
  if (65 <=? n)%nat && (n <=? 90)%nat then Ascii.ascii_of_nat (n + 32) else c.

Fixpoint toLowerCase (s : string) : string :=
  match s with
  | EmptyString => EmptyString
  | String c s' => String (lower_ascii c) (toLowerCase s')
  end.

(** [prisma.user.findUnique({ where: { email } })] *)
Definition user_findUnique_email (e : string) : Prog DB (option User) :=
  λ db, Some (Return (snd <$> head (filter (λ kv, email kv.2 = e) (map_to_list (users db)))),
              db).

(** [prisma.user.findUnique({ where: { id } })] *)
Definition user_findUnique_id (uid : string) : Prog DB (option User) :=
  λ db, Some (Return (users db !! uid), db).

(** [prisma.user.findUnique({ where: { id }, include: { subscription: true } })]:
    the row's object with the related subscription (or [null]) as one
    more property. *)
Definition user_findUnique_id_include_subscription (uid : string)
  : Prog DB (option JsObject) :=
  λ db, Some (Return ((λ u, <["subscription" := nullable JsObj (subscriptions db !! uid)]>
                              (user_object u)) <$> users db !! uid),
              db).

(** [prisma.user.create({ data })]: [id] and [email] are unique. *)
Definition user_create (u : User) : Prog DB User :=
  λ db, match users db !! id u,
              head (filter (λ kv, email kv.2 = email u) (map_to_list (users db))) with
        | None, None => Some (Return u, set_users (insert (id u) u) db)
        | _, _ => Some (Throw (PrismaError "P2002"), db)
        end.

(** [prisma.device.upsert({ where: { userId_deviceId }, create, update })]:
    [create] and [update] write the same three columns (the key columns
    apart). *)
Definition device_upsert (uid did plat agent : string) (seen : Z) : Prog DB unit :=
  λ db, Some (Return (),
              set_devices
                (λ ds, match ds !! (uid, did) with
                       | Some d =>
                           <[(uid, did) :=
                               {| platform := plat; userAgent := agent; lastSeenAt := seen |}]> ds
                       | None =>
                           <[(uid, did) :=
                               {| platform := plat; userAgent := agent; lastSeenAt := seen |}]> ds
                       end) db).

(** [sanitizeUser(user)]: the rest of the object once [passwordHash] and
    [totpSecret] are taken out. *)
Definition sanitizeUser (user : JsObject) : JsObject :=
  delete "passwordHash" (delete "totpSecret" user).

(** [signTemp(userId)] *)
Definition signTemp (env : Env) (uid : string) : Jwt :=
  jwt_sign (TempClaims uid) TEMP_TTL (now env).

(** Truthiness of a nullable text column. *)
Definition truthy (s : option string) : bool :=
  match s with
  | Some s => negb (String.eqb s "")
  | None => false
  end.

Inductive LoginResult : Type :=
  | Require2FA (tempToken : Jwt) (message : string)
  | LoggedIn (user : JsObject) (tokens : TokenPair).

Record AuthResult : Type := { auth_user : JsObject; auth_tokens : TokenPair }.

Section AuthService.

(** The password hash and the one-time-code checker are collaborators:
    [bcrypt.hash(password, 12)] (salted from the environment),
    [bcrypt.compare(password, hash)] and
    [otplib.authenticator.check(code, secret)] at a given time. *)
Variable bcrypt_hash : Env → string → string.
Variable bcrypt_compare : string → string → bool.
Variable totp_check : Z → string → string → bool.

(** [register(email, password, displayName, age = 18)]; an argument
    that was left out is the empty string (both are falsy). *)
Definition register (env : Env) (email_ password displayName_ : string)
    (age_ : option Z) : Prog DB JsObject :=
  let age_ := default 18%Z age_ in
  if String.eqb email_ "" || String.eqb password "" || String.eqb displayName_ "" then
    throw (ValidationError "Email, password, and display name are required")
  else if (String.length password <? 8)%nat then
    throw (ValidationError "Password must be at least 8 characters")
  else if (age_ <? 18)%Z then
    throw (ValidationError "You must be 18 or older to register")
  else
    await existing ← user_findUnique_email (toLowerCase email_);
    match existing with
    | Some _ => throw (ConflictError "Email already registered")
    | None =>
        let passwordHash_ := bcrypt_hash env password in
        await user ← user_create
          {| id := uuid env; email := toLowerCase email_;
             passwordHash := passwordHash_; displayName := displayName_;
             age := age_; bio := ""; tags := []; photoUrl := "";
             lat := None; lng := None; stripeCustomerId := None;
             twoFAEnabled := false; totpSecret := None; reputation := 0;
             isVerified := false; createdAt := now env; updatedAt := now env |};
        ret (sanitizeUser (user_object user))
    end.

(** [login(email, password, deviceId, platform, userAgent)] *)
Definition login (env : Env) (email_ password deviceId_ platform_ userAgent_ : string)
  : Prog DB LoginResult :=
  if String.eqb email_ "" || String.eqb password "" then
    throw (ValidationError "Email and password are required")
  else
    await user ← user_findUnique_email (toLowerCase email_);
    match user with
    | None => throw (UnauthorizedError "Invalid email or password")
    | Some user =>
        if negb (bcrypt_compare password (passwordHash user)) then
          throw (UnauthorizedError "Invalid email or password")
        else
          await_ device_upsert (id user) deviceId_ platform_ userAgent_ (now env);
          if twoFAEnabled user && truthy (totpSecret user) then
            ret (Require2FA (signTemp env (id user)) "Please provide 2FA code")
          else
            await tokens ← on_sessions (issueTokens env (id user) deviceId_);
            ret (LoggedIn (sanitizeUser (user_object user)) tokens)
    end.

(** [verify2FA(tempToken, code, deviceId)] *)
Definition verify2FA (env : Env) (tempToken : option Jwt) (code deviceId_ : string)
  : Prog DB AuthResult :=
  match tempToken with
  | None => throw (ValidationError "Temp token and 2FA code are required")
  | Some tempToken =>
      if String.eqb code "" then
        throw (ValidationError "Temp token and 2FA code are required")
      else
        match jwt_verify tempToken (now env) with
        | None => throw (UnauthorizedError "Invalid or expired temp token")
        | Some (TempClaims sub) =>
            await user ← user_findUnique_id sub;
            match user with
            | None => throw (UnauthorizedError "2FA not enabled for this user")
            | Some user =>
                if negb (twoFAEnabled user) || negb (truthy (totpSecret user)) then
                  throw (UnauthorizedError "2FA not enabled for this user")
                else if negb (totp_check (now env) code (default "" (totpSecret user))) then
                  throw (UnauthorizedError "Invalid 2FA code")
                else
                  await tokens ← on_sessions (issueTokens env (id user) deviceId_);
                  ret {| auth_user := sanitizeUser (user_object user);
                         auth_tokens := tokens |}
            end
        | Some _ => throw (UnauthorizedError "Invalid token type")
        end
  end.

(** [getUserById(userId)] *)
Definition getUserById (uid : string) : Prog DB JsObject :=
  await user ← user_findUnique_id_include_subscription uid;
  match user with
  | None => throw (UnauthorizedError "User not found")
  | Some user => ret (sanitizeUser user)
  end.

End AuthService.

(* ===================================================================== *)
(** * What each method does to the Session table                          *)
(* ===================================================================== *)

(** The two updates the service ever sends. *)
Definition mark_revoked : Session → Session :=
  apply_data {| data_revoked := Some true; data_replacedBy := None |}.

Definition retire (newJti : string) : Session → Session :=
  apply_data {| data_revoked := Some true; data_replacedBy := Some newJti |}.

(** The row [issueTokens] inserts. *)
Definition is_fresh (row : Session) : Prop :=
  revoked row = false ∧ replacedBy row = None.

(** How one call may change the row stored under one key. *)
Inductive row_change (db : Sessions) (c : Call) : option Session → option Session → Prop :=
  | row_same o :
      row_change db c o o
  | row_revoked s :
      revoked s = false →
      (∀ uid did, call_op c ≠ OpIssueTokens uid did) →
      row_change db c (Some s) (Some (mark_revoked s))
  | row_rotated s token newJti :
      revoked s = false →
      call_op c = OpRotateRefresh token →
      db !! newJti = None →
      row_change db c (Some s) (Some (retire newJti s))
  | row_created row :
      is_fresh row →
      (∃ uid did, call_op c = OpIssueTokens uid did) ∨ (∃ token, call_op c = OpRotateRefresh token) →
      row_change db c None (Some row).

(** A table differs from another only by rows marked revoked. *)
Definition only_revokes (db db' : Sessions) : Prop :=
  ∀ j, db' !! j = db !! j ∨
       ∃ s, db !! j = Some s ∧ revoked s = false ∧ db' !! j = Some (mark_revoked s).

(** The row [issueTokens] writes for a principal and device. *)
Definition new_session (env : Env) (uid did : string) : Session :=
  {| userId := uid; deviceId := did; revoked := false; replacedBy := None;
     expiresAt := (now env + REFRESH_TTL_SECONDS * 1000)%Z |}.

(** The pair [issueTokens] signs. *)
Definition new_pair (env : Env) (uid did : string) : TokenPair :=
  {| accessToken := jwt_sign (AccessClaims uid) ACCESS_TTL (now env);
     refreshToken :=
       jwt_sign (RefreshClaims uid (uuid env) did) REFRESH_TTL_SECONDS (now env) |}.

(** The table [logout] leaves. *)
Definition logout_table (env : Env) (token : option Jwt) (db : Sessions) : Sessions :=
  match token with
  | Some t =>
      match jwt_verify t (now env) with
      | Some p =>
          match payload_jti p with
          | Some j =>
              match db !! j with
              | Some s => <[j := mark_revoked s]> db
              | None => db
              end
          | None => db
          end
      | None => db
      end
  | None => db
  end.

(** The [where] clause of [logoutAllDevices]. *)
Definition owned_active (uid : string) (s : Session) : bool :=
  bool_decide (userId s = uid) && negb (revoked s).

#[global] Instance Session_eq_dec : EqDecision Session.
Proof. solve_decision. Defined.

(** The rejection a client sees as "unauthorized, log in again". *)
Definition unauthorized {A} (r : Outcome A) : Prop :=
  ∃ msg, r = Throw (UnauthorizedError msg).

(** The scenario of the specification: principal A logs in on device D1
    and receives R1, rotates R1 into R2, and a second principal B holds a
    session of its own. *)
Module Scenario.
Definition env1 : Env := {| now := 1000; uuid := "r1" |}.
Definition env2 : Env := {| now := 2000; uuid := "r2" |}.
Definition env3 : Env := {| now := 3000; uuid := "r3" |}.
Definition envB : Env := {| now := 1500; uuid := "b1" |}.

Definition R1 : Jwt := refreshToken (new_pair env1 "A" "D1").
Definition R2 : Jwt := refreshToken (new_pair env2 "A" "D1").

Definition login_A : Call :=
  {| call_fuel := 0; call_env := env1; call_op := OpIssueTokens "A" "D1" |}.
Definition login_B : Call :=
  {| call_fuel := 0; call_env := envB; call_op := OpIssueTokens "B" "D9" |}.
Definition rotate_R1 : Call :=
  {| call_fuel := 0; call_env := env2; call_op := OpRotateRefresh (Some R1) |}.
Definition logout_R1 : Call :=
  {| call_fuel := 0; call_env := env2; call_op := OpLogout (Some R1) |}.

(** After A and B logged in. *)
Definition logged_in : Sessions :=
  <["b1" := new_session envB "B" "D9"]> (<["r1" := new_session env1 "A" "D1"]> ∅).

(** After A then rotated R1 into R2. *)
Definition rotated : Sessions :=
  <["r1" := retire "r2" (new_session env1 "A" "D1")]>
    (<["r2" := new_session env2 "A" "D1"]> logged_in).

(** After A instead logged out with R1. *)
Definition logged_out : Sessions :=
  <["r1" := mark_revoked (new_session env1 "A" "D1")]> logged_in.

(** Two calls in flight, both presenting R1: a client that retried a
    dropped response. *)
Definition double_fire : Race :=
  {| task1 := Presented (Some R1); task2 := Presented (Some R1); table := logged_in |}.

(** Both calls read the row before either writes it. *)
Definition both_read_first : list Side :=
  [First; Second; First; First; Second; Second].

(** The same schedule, stopped before the second call's update. *)
Definition before_second_update : list Side :=
  [First; Second; First; First; Second].

(** The table at that point: R1's row is already retired in favour of
    the first call's row, and the second call's row exists. *)
Definition second_about_to_retire : Sessions :=
  <["r3" := new_session env3 "A" "D1"]> rotated.

(** A principal with the second factor switched on, one without, and
    stand-ins for the hash and the code checker. *)
Definition carol : User :=
  {| id := "u-carol"; email := "carol@example.com"; passwordHash := "hash:correct horse";
     displayName := "Carol"; age := 30; bio := ""; tags := []; photoUrl := "";
     lat := None; lng := None; stripeCustomerId := None;
     twoFAEnabled := true; totpSecret := Some "JBSWY3DPEHPK3PXP";
     reputation := 0; isVerified := false; createdAt := 0; updatedAt := 0 |}.

Definition dave : User :=
  {| id := "u-dave"; email := "dave@example.com"; passwordHash := "hash:hunter22";
     displayName := "Dave"; age := 41; bio := ""; tags := ["chess"]; photoUrl := "";
     lat := None; lng := None; stripeCustomerId := None;
     twoFAEnabled := false; totpSecret := None;
     reputation := 0; isVerified := false; createdAt := 0; updatedAt := 0 |}.

Definition accounts : DB :=
  {| users := <["u-dave" := dave]> (<["u-carol" := carol]> ∅);
     devices := ∅; sessions := ∅; subscriptions := ∅ |}.

Definition hash (_ : Env) (password : string) : string := "hash:" ++ password.
Definition compare (password h : string) : bool := String.eqb ("hash:" ++ password) h.
Definition check (_ : Z) (code secret : string) : bool :=
  String.eqb code "492039" && String.eqb secret "JBSWY3DPEHPK3PXP".

Definition env_login : Env := {| now := 10000; uuid := "s1" |}.
Definition env_code : Env := {| now := 40000; uuid := "s2" |}.
End Scenario.

(* ===================================================================== *)
(** * The rest of the service, its middleware and a route                 *)
(* ===================================================================== *)

(** [prisma.session.deleteMany({ where })], resolving to [{ count }]. *)
Definition session_deleteMany (where_ : Session → bool) : Prog Sessions nat :=
  λ db, Some (Return (size (filter (λ kv, where_ kv.2 = true) db)),
              filter (λ kv, where_ kv.2 = false) db).

(** [cleanupExpiredSessions()]: deletes the rows with
    [expiresAt < new Date()] and returns how many there were. *)
Definition cleanupExpiredSessions (env : Env) : Prog Sessions nat :=
  await result ← session_deleteMany (λ s, (expiresAt s <? now env)%Z);
  ret result.

(** The two errors [jwt.verify] throws here, by [err.name]. *)
Inductive JwtError : Type :=
  | TokenExpiredError
  | JsonWebTokenError.

(** [jwt.verify] with the error it throws: the signature is checked
    before the expiry. *)
Definition jwt_verify_result (t : Jwt) (ms : Z) : JwtError + Payload :=
  if negb (signed t) then inl JsonWebTokenError
  else if (seconds ms <? exp t)%Z then inr (claims t)
  else inl TokenExpiredError.

(** [str.slice(n)] *)
Definition slice (n : nat) (s : string) : string :=
  String.substring n (String.length s - n) s.

Section Middleware.

(** The compact serialization of a token, read back: a string that is no
    well-formed token reads as one with [signed = false]. *)
Variable jwt_parse : string → Jwt.

(** [authenticate(req, res, next)] of [middleware/authenticate.js]: the
    argument is [req.headers.authorization]; it resolves with what it
    stores in [req.userId], or hands the error to [next].  (The failure
    counters are left out.) *)
Definition authenticate (env : Env) (authorization : option string) : Outcome string :=
  match authorization with
  | None => Throw (UnauthorizedError "Authorization header required")
  | Some authHeader =>
      if String.eqb authHeader "" then
        Throw (UnauthorizedError "Authorization header required")
      else if negb (String.prefix "Bearer " authHeader) then
        Throw (UnauthorizedError "Invalid authorization format. Use: Bearer <token>")
      else
        let token := slice 7 authHeader in
        if String.eqb token "" then
          Throw (UnauthorizedError "Token not provided")
        else
          match jwt_verify_result (jwt_parse token) (now env) with
          | inl TokenExpiredError => Throw (UnauthorizedError "Token expired")
          | inl JsonWebTokenError => Throw (UnauthorizedError "Invalid token")
          | inr (AccessClaims sub) => Return sub
          | inr _ => Throw (UnauthorizedError "Invalid token type")
          end
  end.

(** [optionalAuthenticate(req, res, next)]: always calls [next()]; the
    result is [req.userId], set or not. *)
Definition optionalAuthenticate (env : Env) (authorization : option string) : option string :=
  match authorization with
  | None => None
  | Some authHeader =>
      if String.eqb authHeader "" || negb (String.prefix "Bearer " authHeader) then None
      else
        let token := slice 7 authHeader in
        if String.eqb token "" then None
        else
          match jwt_verify (jwt_parse token) (now env) with
          | Some (AccessClaims sub) => Some sub
          | Some _ => None
          | None => None
          end
  end.

(** The Socket.IO authentication middleware of the server: the argument
    is [socket.handshake.auth.token]; it sets [socket.userId] or refuses
    the connection with a plain [Error] carrying a message. *)
Definition socket_authenticate (env : Env) (token : option string) : string + string :=
  match token with
  | None => inl "Authentication token required"
  | Some token =>
      if String.eqb token "" then inl "Authentication token required"
      else
        match jwt_verify (jwt_parse token) (now env) with
        | None => inl "Authentication failed"
        | Some (AccessClaims sub) => inr sub
        | Some _ => inl "Invalid token type"
        end
  end.

End Middleware.

(** What a route handler gives to [next]: an error of the service's
    classes, or the [TypeError] of reading a property of [null]. *)
Inductive HandlerError : Type :=
  | Thrown (e : AppError)
  | TypeError (message : string).

(** How a route handler ends: with [res.json({ success: true, ...a })],
    or with [next(err)]. *)
Inductive Reply (A : Type) : Type :=
  | Success (a : A)
  | Next (err : HandlerError).
Arguments Success {A} a.
Arguments Next {A} err.

(** [prisma.user.update({ where: { id }, data: { passwordHash } })]; the
    client stamps [updatedAt]. *)
Definition set_passwordHash (h : string) (stamp : Z) (u : User) : User :=
  {| id := id u; email := email u; passwordHash := h; displayName := displayName u;
     age := age u; bio := bio u; tags := tags u; photoUrl := photoUrl u;
     lat := lat u; lng := lng u; stripeCustomerId := stripeCustomerId u;
     twoFAEnabled := twoFAEnabled u; totpSecret := totpSecret u;
     reputation := reputation u; isVerified := isVerified u;
     createdAt := createdAt u; updatedAt := stamp |}.

Section Routes.

Variable bcrypt_hash : Env → string → string.
Variable bcrypt_compare : string → string → bool.

(** [POST /api/auth/change-password], after [authenticate] has set
    [req.userId]: the arguments are [req.userId], [currentPassword] and
    [newPassword].  Reading [user.passwordHash] of a user that is gone is
    a [TypeError]. *)
Definition route_change_password (env : Env)
    (uid currentPassword newPassword : string) : DB → option (Reply string * DB) :=
  λ db,
    if String.eqb currentPassword "" || String.eqb newPassword "" then
      Some (Next (Thrown (ValidationError "Current password and new password are required")),
            db)
    else if (String.length newPassword <? 8)%nat then
      Some (Next (Thrown (ValidationError "New password must be at least 8 characters")), db)
    else
      match users db !! uid with
      | None =>
          Some (Next (TypeError "Cannot read properties of null (reading 'passwordHash')"),
                db)
      | Some user =>
          if negb (bcrypt_compare currentPassword (passwordHash user)) then
            Some (Next (Thrown (ValidationError "Current password is incorrect")), db)
          else
            let newHash := bcrypt_hash env newPassword in
            let db1 := set_users (insert uid (set_passwordHash newHash (now env) user)) db in
            match on_sessions (logoutAllDevices uid) db1 with
            | Some (Return _, db2) =>
                Some (Success
                        "Password changed successfully. Please log in again on other devices.",
                      db2)
            | Some (Throw e, db2) => Some (Next (Thrown e), db2)
            | None => None
            end
      end.

End Routes.

Ltac unfold_prog :=
  unfold bind, ret, throw, pending, try_catch,
    session_findUnique, session_create, session_update, session_updateMany in *;
  cbv beta iota in *.

Lemma mark_revoked_revoked s : revoked (mark_revoked s) = true.
Proof. reflexivity. Qed.

Lemma mark_revoked_replacedBy s : replacedBy (mark_revoked s) = replacedBy s.
Proof. reflexivity. Qed.

Lemma mark_revoked_id s : revoked s = true → mark_revoked s = s.
Proof. destruct s as [u d r p e]; simpl; intros ->; reflexivity. Qed.

Lemma only_revokes_refl db : only_revokes db db.
Proof. intros j; by left. Qed.

Lemma only_revokes_trans db1 db2 db3 :
  only_revokes db1 db2 → only_revokes db2 db3 → only_revokes db1 db3.
Proof.
  intros H12 H23 j.
  destruct (H23 j) as [E23 | (s2 & E2 & R2 & E3)];
    destruct (H12 j) as [E12 | (s1 & E1 & R1 & E2')].
  - left; congruence.
  - right; exists s1; repeat split; congruence.
  - right; exists s2; repeat split; congruence.
  - rewrite E2' in E2; simplify_eq.
Qed.

Lemma only_revokes_mark db j s :
  db !! j = Some s → only_revokes db (<[j := mark_revoked s]> db).
Proof.
  intros Hj k. destruct (decide (j = k)) as [<- | Hne].
  - rewrite lookup_insert_eq. destruct (revoked s) eqn:R.
    + left. by rewrite mark_revoked_id.
    + right; eauto.
  - left. by rewrite lookup_insert_ne.
Qed.

(** [issueTokens] either inserts one fresh row under the drawn identifier,
    which was free, or is rejected by the unique index and changes nothing. *)
Lemma issueTokens_effect env uid did db :
  issueTokens env uid did db =
  match db !! uuid env with
  | None => Some (Return (new_pair env uid did), <[uuid env := new_session env uid did]> db)
  | Some _ => Some (Throw (PrismaError "P2002"), db)
  end.
Proof.
  unfold issueTokens; unfold_prog. by destruct (db !! uuid env).
Qed.

(** One call of [revokeFamily], with the table made explicit. *)
Lemma revokeFamily_S fuel jti db :
  revokeFamily (S fuel) jti db =
  match db !! jti with
  | None => Some (Return (), db)
  | Some s =>
      match replacedBy s with
      | Some next => revokeFamily fuel next (<[jti := mark_revoked s]> db)
      | None => Some (Return (), <[jti := mark_revoked s]> db)
      end
  end.
Proof.
  cbn [revokeFamily]. unfold_prog.
  destruct (db !! jti) as [s |] eqn:E; [| done].
  rewrite E. by destruct (replacedBy s).
Qed.

(** [revokeFamily] never throws, and only marks rows revoked. *)
Lemma revokeFamily_effect fuel : ∀ jti db r db',
  revokeFamily fuel jti db = Some (r, db') →
  r = Return () ∧ only_revokes db db'.
Proof.
  induction fuel as [| fuel IH]; intros jti db r db' H.
  - discriminate.
  - rewrite revokeFamily_S in H. destruct (db !! jti) as [s |] eqn:E.
    + destruct (replacedBy s) as [next |] eqn:Enext.
      * apply IH in H as [-> Hrev]. split; [done |].
        eapply only_revokes_trans; [| exact Hrev]. by apply only_revokes_mark.
      * simplify_eq. split; [done |]. by apply only_revokes_mark.
    + simplify_eq. split; [done | apply only_revokes_refl].
Qed.

(** More fuel does not change a walk that already came to its end. *)
Lemma revokeFamily_fuel_mono fuel : ∀ fuel' jti db res,
  (fuel ≤ fuel')%nat → revokeFamily fuel jti db = Some res →
  revokeFamily fuel' jti db = Some res.
Proof.
  induction fuel as [| fuel IH]; intros fuel' jti db res Hle H.
  - discriminate.
  - destruct fuel' as [| fuel']; [lia |]. rewrite revokeFamily_S in *.
    destruct (db !! jti) as [s |]; [| done].
    destruct (replacedBy s); [| done].
    apply IH; [lia | done].
Qed.

Lemma only_revokes_follows db db' j k :
  only_revokes db db' → follows db j k → follows db' j k.
Proof.
  intros Hrev Hf. induction Hf as [j s Hj | j s next k Hj Hnext _ IH].
  - destruct (Hrev j) as [E | (s0 & E0 & _ & E')].
    + eapply follows_here. by rewrite E.
    + by eapply follows_here.
  - destruct (Hrev j) as [E | (s0 & E0 & _ & E')].
    + eapply follows_next; [by rewrite E | done | done].
    + rewrite Hj in E0; simplify_eq.
      eapply follows_next; [done | by rewrite mark_revoked_replacedBy | done].
Qed.

Lemma only_revokes_keeps_revoked db db' j s :
  only_revokes db db' → db !! j = Some s → revoked s = true → db' !! j = Some s.
Proof.
  intros Hrev Hj R. destruct (Hrev j) as [E | (s0 & E0 & R0 & _)]; [congruence |].
  rewrite Hj in E0; simplify_eq. congruence.
Qed.

Lemma only_revokes_walk_ends db db' j :
  only_revokes db db' → walk_ends db j → walk_ends db' j.
Proof.
  intros Hrev Hw. induction Hw as [j Hj | j s Hj Htip | j s next Hj Hnext _ IH];
    destruct (Hrev j) as [E | (s0 & E0 & _ & E')]; simplify_eq.
  - apply walk_missing. congruence.
  - eapply walk_tip; [by rewrite E | done].
  - eapply walk_tip; [done | by rewrite mark_revoked_replacedBy].
  - eapply walk_next; [by rewrite E | done | done].
  - eapply walk_next; [done | by rewrite mark_revoked_replacedBy | done].
Qed.

(** Where the walk ends, [revokeFamily] returns. *)
Lemma revokeFamily_terminates db jti :
  walk_ends db jti →
  ∃ fuel db', revokeFamily fuel jti db = Some (Return (), db').
Proof.
  intros Hw. revert db Hw.
  enough (∀ db0, walk_ends db0 jti → ∀ db, only_revokes db0 db →
            ∃ fuel db', revokeFamily fuel jti db = Some (Return (), db')) as H.
  { intros db Hw. eapply H; [exact Hw | apply only_revokes_refl]. }
  intros db0 Hw.
  induction Hw as [j Hj | j s Hj Htip | j s next Hj Hnext _ IH]; intros db Hrev.
  - exists 1, db. rewrite revokeFamily_S.
    destruct (Hrev j) as [E | (s0 & E0 & _)]; [| congruence].
    by rewrite E, Hj.
  - exists 1. rewrite revokeFamily_S.
    destruct (Hrev j) as [E | (s0 & E0 & _ & E')].
    + rewrite E, Hj, Htip. eauto.
    + rewrite E'. rewrite Hj in E0; simplify_eq.
      rewrite mark_revoked_replacedBy, Htip. eauto.
  - assert (∃ s', db !! j = Some s' ∧ replacedBy s' = Some next) as (s' & Hs' & Hn').
    { destruct (Hrev j) as [E | (s0 & E0 & _ & E')].
      - exists s. split; congruence.
      - rewrite Hj in E0; simplify_eq. eexists; split; [done |].
        by rewrite mark_revoked_replacedBy. }
    destruct (IH (<[j := mark_revoked s']> db)) as (fuel & db' & Hrun).
    { eapply only_revokes_trans; [exact Hrev | by apply only_revokes_mark]. }
    exists (S fuel), db'. rewrite revokeFamily_S. by rewrite Hs', Hn'.
Qed.

(** Every row met on the walk from [jti] is revoked afterwards. *)
Lemma revokeFamily_revokes_chain fuel : ∀ jti db r db' k,
  revokeFamily fuel jti db = Some (r, db') →
  follows db jti k →
  ∃ s', db' !! k = Some s' ∧ revoked s' = true.
Proof.
  induction fuel as [| fuel IH]; intros jti db r db' k H Hf.
  - discriminate.
  - rewrite revokeFamily_S in H.
    destruct Hf as [j s Hj | j s next k Hj Hnext Hf]; rewrite Hj in H.
    + assert (only_revokes (<[j := mark_revoked s]> db) db') as Hrev.
      { destruct (replacedBy s).
        - by apply revokeFamily_effect in H as [_ ?].
        - simplify_eq. apply only_revokes_refl. }
      exists (mark_revoked s). split; [| done].
      eapply only_revokes_keeps_revoked; [exact Hrev | apply lookup_insert_eq | done].
    + rewrite Hnext in H. eapply IH; [exact H |].
      eapply only_revokes_follows; [| exact Hf]. by apply only_revokes_mark.
Qed.

Lemma jwt_verify_claims token ms p : jwt_verify token ms = Some p → p = claims token.
Proof. unfold jwt_verify. destruct (_ && _); congruence. Qed.

(** [rotateRefresh], with the table made explicit. *)
Lemma rotateRefresh_unfold fuel env token db :
  rotateRefresh fuel env token db =
  match token with
  | None => Some (Throw (ValidationError "Refresh token is required"), db)
  | Some t =>
      match jwt_verify t (now env) with
      | None => Some (Throw (UnauthorizedError "Invalid or expired refresh token"), db)
      | Some (RefreshClaims sub jti did) =>
          match db !! jti with
          | None => Some (Throw (UnauthorizedError "Session not found"), db)
          | Some s =>
              if revoked s then
                match revokeFamily fuel jti db with
                | Some (_, db') =>
                    Some (Throw (UnauthorizedError "Token has been revoked"), db')
                | None => None
                end
              else
                match db !! uuid env with
                | Some _ => Some (Throw (PrismaError "P2002"), db)
                | None =>
                    Some (Return (new_pair env sub did),
                          <[jti := retire (uuid env) s]>
                            (<[uuid env := new_session env sub did]> db))
                end
          end
      | Some _ => Some (Throw (UnauthorizedError "Invalid token type"), db)
      end
  end.
Proof.
  unfold rotateRefresh. destruct token as [t |]; [| done].
  destruct (jwt_verify t (now env)) as [[sub | sub jti did | sub] |]; try done.
  unfold bind at 1. unfold session_findUnique.
  destruct (db !! jti) as [s |] eqn:Hs; [| done].
  destruct (revoked s) eqn:R.
  - unfold bind, throw.
    destruct (revokeFamily fuel jti db) as [[r db'] |] eqn:Hrun; [| done].
    apply revokeFamily_effect in Hrun as [-> _]. done.
  - unfold bind at 1. rewrite issueTokens_effect.
    destruct (db !! uuid env) eqn:Hnew; [done |].
    cbn [new_pair refreshToken jwt_decode jwt_sign claims payload_jti].
    unfold_prog.
    assert (jti ≠ uuid env) by congruence.
    rewrite lookup_insert_ne by done. by rewrite Hs.
Qed.

(** [logout] always resolves with [{ success: true }]. *)
Lemma logout_unfold env token db :
  logout env token db = Some (Return {| success := true |}, logout_table env token db).
Proof.
  unfold logout, logout_table. destruct token as [t |]; [| done].
  unfold_prog.
  destruct (jwt_verify t (now env)) as [p |]; [| done].
  destruct (payload_jti p) as [j |]; [| done].
  by destruct (db !! j).
Qed.

Lemma logoutAllDevices_unfold uid db :
  logoutAllDevices uid db =
  Some (Return {| all_success := true;
                  revokedSessions := size (filter (λ kv, owned_active uid kv.2 = true) db) |},
        (λ s, if owned_active uid s then mark_revoked s else s) <$> db).
Proof. reflexivity. Qed.

Lemma logout_only_revokes env token db : only_revokes db (logout_table env token db).
Proof.
  unfold logout_table. destruct token as [t |]; [| apply only_revokes_refl].
  destruct (jwt_verify t (now env)) as [p |]; [| apply only_revokes_refl].
  destruct (payload_jti p) as [j |]; [| apply only_revokes_refl].
  destruct (db !! j) eqn:E; [| apply only_revokes_refl].
  by apply only_revokes_mark.
Qed.

Lemma logoutAll_lookup uid (db : Sessions) j :
  ((λ s, if owned_active uid s then mark_revoked s else s) <$> db) !! j =
  (λ s, if owned_active uid s then mark_revoked s else s) <$> (db !! j).
Proof. apply lookup_fmap. Qed.

Lemma logoutAll_only_revokes uid (db : Sessions) :
  only_revokes db ((λ s, if owned_active uid s then mark_revoked s else s) <$> db).
Proof.
  intros j. rewrite logoutAll_lookup. destruct (db !! j) as [s |] eqn:E; [| by left].
  simpl. destruct (owned_active uid s) eqn:Hc; [| by left].
  right. exists s. repeat split; try done.
  unfold owned_active in Hc. apply andb_true_iff in Hc as [_ Hc].
  by apply negb_true_iff in Hc.
Qed.

(** A call that only revokes changes each row as [row_change] allows. *)
Lemma only_revokes_row_change db db' c j :
  (∀ uid did, call_op c ≠ OpIssueTokens uid did) →
  only_revokes db db' → row_change db c (db !! j) (db' !! j).
Proof.
  intros Hop Hrev. destruct (Hrev j) as [-> | (s & -> & R & ->)].
  - apply row_same.
  - by apply row_revoked.
Qed.

(** The effect of any one call, row by row. *)
Lemma call_effect c db db' j :
  run_call c db = Some db' → row_change db c (db !! j) (db' !! j).
Proof.
  unfold run_call, after. destruct c as [fuel env op]; cbn [call_op call_env call_fuel].
  destruct op as [uid did | token | jti | token | uid]; intros H.
  - rewrite issueTokens_effect in H. destruct (db !! uuid env) eqn:E; simplify_eq/=.
    + apply row_same.
    + destruct (decide (uuid env = j)) as [<- | Hne].
      * rewrite lookup_insert_eq, E. apply row_created; [done |]. left; eauto.
      * rewrite lookup_insert_ne by done. apply row_same.
  - rewrite rotateRefresh_unfold in H.
    destruct token as [t |]; simplify_eq/=; [| apply row_same].
    destruct (jwt_verify t (now env)) as [[sub | sub jti did | sub] |];
      simplify_eq/=; try apply row_same.
    destruct (db !! jti) as [s |] eqn:Hs; simplify_eq/=; [| apply row_same].
    destruct (revoked s) eqn:R.
    + destruct (revokeFamily fuel jti db) as [[r db1] |] eqn:Hrun; simplify_eq/=.
      apply revokeFamily_effect in Hrun as [_ Hrev].
      by apply only_revokes_row_change.
    + destruct (db !! uuid env) eqn:Hnew; simplify_eq/=; [apply row_same |].
      assert (jti ≠ uuid env) by congruence.
      destruct (decide (jti = j)) as [<- | Hne].
      * rewrite lookup_insert_eq, Hs. by eapply row_rotated.
      * rewrite lookup_insert_ne by done.
        destruct (decide (uuid env = j)) as [<- | Hne'].
        -- rewrite lookup_insert_eq, Hnew. apply row_created; [done |]. right; eauto.
        -- rewrite lookup_insert_ne by done. apply row_same.
  - destruct (revokeFamily fuel jti db) as [[r db1] |] eqn:Hrun; simplify_eq/=.
    apply revokeFamily_effect in Hrun as [_ Hrev].
    by apply only_revokes_row_change.
  - rewrite logout_unfold in H. simplify_eq/=.
    apply only_revokes_row_change; [done |]. apply logout_only_revokes.
  - rewrite logoutAllDevices_unfold in H. simplify_eq/=.
    apply only_revokes_row_change; [done |]. apply logoutAll_only_revokes.
Qed.

(* ===================================================================== *)
(** * Invariants of the reachable tables                                  *)
(* ===================================================================== *)

Lemma well_formed_empty : well_formed ∅.
Proof.
  split.
  - intros j s H. by rewrite lookup_empty in H.
  - intros j. apply walk_missing, lookup_empty.
Qed.

(** A row with a successor is revoked, hence frozen: no call changes it. *)
Lemma call_keeps_revoked c db db' j s :
  run_call c db = Some db' → db !! j = Some s → revoked s = true →
  db' !! j = Some s.
Proof.
  intros Hrun Hj R. pose proof (call_effect c db db' j Hrun) as Hch.
  rewrite Hj in Hch. inversion Hch; simplify_eq; congruence.
Qed.

Lemma call_well_formed c db db' :
  well_formed db → run_call c db = Some db' → well_formed db'.
Proof.
  intros [Hact Hwalk] Hrun. split.
  - intros j s' Hj' R'. pose proof (call_effect c db db' j Hrun) as Hch.
    rewrite Hj' in Hch. inversion Hch as [o | s | s token newJti | row]; simplify_eq.
    + by eapply Hact.
    + match goal with H : is_fresh _ |- _ => by destruct H end.
  - assert (∀ k, db !! k = None → walk_ends db' k) as Hnew.
    { intros k Hk. pose proof (call_effect c db db' k Hrun) as Hch.
      rewrite Hk in Hch. inversion Hch as [o | | | row Hfresh]; simplify_eq.
      - by apply walk_missing.
      - destruct Hfresh. by eapply walk_tip. }
    intros j. specialize (Hwalk j).
    induction Hwalk as [j Hj | j s Hj Htip | j s next Hj Hnext _ IH].
    + by apply Hnew.
    + pose proof (call_effect c db db' j Hrun) as Hch.
      rewrite Hj in Hch. inversion Hch as [o | s0 | s0 token newJti | row]; simplify_eq.
      * by eapply walk_tip.
      * by eapply walk_tip.
      * eapply walk_next; [done | reflexivity |]. by apply Hnew.
    + assert (revoked s = true) as R.
      { destruct (revoked s) eqn:R; [done |].
        specialize (Hact j s Hj R). congruence. }
      eapply walk_next; [| exact Hnext | exact IH].
      by eapply call_keeps_revoked.
Qed.

Lemma exec_app calls1 : ∀ calls2 db,
  exec (calls1 ++ calls2) db =
  match exec calls1 db with
  | Some db' => exec calls2 db'
  | None => None
  end.
Proof.
  induction calls1 as [| c calls1 IH]; intros calls2 db; simpl; [done |].
  destruct (run_call c db); [apply IH | done].
Qed.

Lemma exec_well_formed calls : ∀ db db',
  well_formed db → exec calls db = Some db' → well_formed db'.
Proof.
  induction calls as [| c calls IH]; intros db db' Hwf H; simpl in H.
  - by simplify_eq.
  - destruct (run_call c db) as [db1 |] eqn:Hc; [| done].
    eapply IH; [| exact H]. by eapply call_well_formed.
Qed.

Lemma exec_keeps_revoked calls : ∀ db db' j s,
  exec calls db = Some db' → db !! j = Some s → revoked s = true →
  db' !! j = Some s.
Proof.
  induction calls as [| c calls IH]; intros db db' j s H Hj R; simpl in H.
  - by simplify_eq.
  - destruct (run_call c db) as [db1 |] eqn:Hc; [| done].
    eapply IH; [exact H | | done]. by eapply call_keeps_revoked.
Qed.

Lemma reachable_well_formed db : reachable db → well_formed db.
Proof. intros [calls H]. eapply exec_well_formed; [apply well_formed_empty | exact H]. Qed.

Lemma reachable_exec calls db db' :
  reachable db → exec calls db = Some db' → reachable db'.
Proof.
  intros [calls0 H0] H. exists (calls0 ++ calls)%list. by rewrite exec_app, H0.
Qed.

(** Rotation with the identifier of a revoked row is rejected: either the
    bearer string does not verify, or the row is found revoked and the
    cascade, which comes to an end on a well-formed table, is followed by
    the rejection. *)
Lemma rotate_revoked_rejected db j s env token :
  well_formed db → db !! j = Some s → revoked s = true →
  payload_jti (claims token) = Some j →
  ∃ fuel db', ∀ fuel', (fuel ≤ fuel')%nat →
    ∃ r, rotateRefresh fuel' env (Some token) db = Some (r, db') ∧ unauthorized r.
Proof.
  intros [_ Hwalk] Hj R Hjti.
  destruct (jwt_verify token (now env)) as [p |] eqn:Hv.
  - apply jwt_verify_claims in Hv as Hp. subst p.
    destruct (claims token) as [sub | sub jti did | sub]; simpl in Hjti; simplify_eq.
    destruct (revokeFamily_terminates db j (Hwalk j)) as (fuel & db' & Hrun).
    exists fuel, db'. intros fuel' Hle. eexists. split; [| by eexists].
    rewrite rotateRefresh_unfold, Hv, Hj, R.
    by rewrite (revokeFamily_fuel_mono fuel fuel' j db _ Hle Hrun).
  - exists 0%nat, db. intros fuel' _. eexists. split; [| by eexists].
    by rewrite rotateRefresh_unfold, Hv.
Qed.

(** ... and this stays so whatever calls are served in between. *)
Lemma rotate_revoked_rejected_later db j s calls db' env token :
  well_formed db → db !! j = Some s → revoked s = true →
  exec calls db = Some db' →
  payload_jti (claims token) = Some j →
  ∃ fuel db'' r, rotateRefresh fuel env (Some token) db' = Some (r, db'') ∧ unauthorized r.
Proof.
  intros Hwf Hj R Hexec Hjti.
  destruct (rotate_revoked_rejected db' j s env token) as (fuel & db'' & H); try done.
  - by eapply exec_well_formed.
  - by eapply exec_keeps_revoked.
  - destruct (H fuel) as (r & Hr & Hu); [lia |]. eauto.
Qed.

Lemma scenario_logged_in_reachable : reachable Scenario.logged_in.
Proof. exists [Scenario.login_A; Scenario.login_B]. vm_compute. reflexivity. Qed.

Lemma scenario_rotated_reachable : reachable Scenario.rotated.
Proof.
  exists [Scenario.login_A; Scenario.login_B; Scenario.rotate_R1].
  vm_compute. reflexivity.
Qed.

Lemma scenario_logged_out_reachable : reachable Scenario.logged_out.
Proof.
  exists [Scenario.login_A; Scenario.login_B; Scenario.logout_R1].
  vm_compute. reflexivity.
Qed.

(* ===================================================================== *)
(** * Reuse detection                                                     *)
(* ===================================================================== *)

(** The scenario run on the code: R1 rotates into R2; R1 presented again
    is rejected and revokes R2's row; R2, never presented before, is then
    rejected too, while B's session is untouched. *)
Example replay_locks_out_latest_token :
  rotateRefresh 0 Scenario.env2 (Some Scenario.R1) Scenario.logged_in =
    Some (Return (new_pair Scenario.env2 "A" "D1"), Scenario.rotated) ∧
  ∃ db',
    rotateRefresh 2 Scenario.env3 (Some Scenario.R1) Scenario.rotated =
      Some (Throw (UnauthorizedError "Token has been revoked"), db') ∧
    rotateRefresh 1 Scenario.env3 (Some Scenario.R2) db' =
      Some (Throw (UnauthorizedError "Token has been revoked"), db') ∧
    db' !! "b1" = Some (new_session Scenario.envB "B" "D9").
Proof.
  split; [vm_compute; reflexivity |].
  eexists. split; [vm_compute; reflexivity |].
  split; vm_compute; reflexivity.
Qed.

(** C1. Presenting a refresh token whose row is revoked and has a
    successor is rejected with an unauthorized error (the cascade comes to
    an end in every reachable table).  Afterwards every row met by
    following [replacedBy] forward from that row, down to the newest one,
    is revoked, and rotation with the identifier of any of them is
    rejected as unauthorized, whatever calls are served in between. *)
Theorem reuse_cascades_forward db env token sub jti did s next :
  reachable db →
  jwt_verify token (now env) = Some (RefreshClaims sub jti did) →
  db !! jti = Some s → revoked s = true → replacedBy s = Some next →
  ∃ fuel db',
    (∀ fuel', (fuel ≤ fuel')%nat →
       rotateRefresh fuel' env (Some token) db =
       Some (Throw (UnauthorizedError "Token has been revoked"), db')) ∧
    (∀ k, follows db jti k → ∃ s', db' !! k = Some s' ∧ revoked s' = true) ∧
    (∀ k calls db'' env' token',
       follows db jti k → exec calls db' = Some db'' →
       payload_jti (claims token') = Some k →
       ∃ fuel' db3 r,
         rotateRefresh fuel' env' (Some token') db'' = Some (r, db3) ∧ unauthorized r).
Proof.
  intros Hreach Hv Hj R Hnext.
  pose proof (reachable_well_formed db Hreach) as Hwf.
  destruct (revokeFamily_terminates db jti (proj2 Hwf jti)) as (fuel & db' & Hrun).
  assert (∀ fuel', (fuel ≤ fuel')%nat →
            rotateRefresh fuel' env (Some token) db =
            Some (Throw (UnauthorizedError "Token has been revoked"), db')) as Hrot.
  { intros fuel' Hle. rewrite rotateRefresh_unfold, Hv, Hj, R.
    by rewrite (revokeFamily_fuel_mono fuel fuel' jti db _ Hle Hrun). }
  assert (∀ k, follows db jti k → ∃ s', db' !! k = Some s' ∧ revoked s' = true) as Hchain.
  { intros k Hk. by eapply revokeFamily_revokes_chain. }
  exists fuel, db'. split; [exact Hrot |]. split; [exact Hchain |].
  intros k calls db'' env' token' Hk Hexec Hjti.
  destruct (Hchain k Hk) as (s' & Hs' & R').
  eapply rotate_revoked_rejected_later; [| exact Hs' | exact R' | exact Hexec | exact Hjti].
  eapply (call_well_formed
            {| call_fuel := fuel; call_env := env; call_op := OpRotateRefresh (Some token) |});
    [exact Hwf |].
  unfold run_call, after; cbn [call_op call_env call_fuel]. by rewrite Hrot.
Qed.

Lemma reuse_cascades_forward_witness :
  ∃ fuel db',
    (∀ fuel', (fuel ≤ fuel')%nat →
       rotateRefresh fuel' Scenario.env3 (Some Scenario.R1) Scenario.rotated =
       Some (Throw (UnauthorizedError "Token has been revoked"), db')) ∧
    (∀ k, follows Scenario.rotated "r1" k → ∃ s', db' !! k = Some s' ∧ revoked s' = true) ∧
    (∀ k calls db'' env' token',
       follows Scenario.rotated "r1" k → exec calls db' = Some db'' →
       payload_jti (claims token') = Some k →
       ∃ fuel' db3 r,
         rotateRefresh fuel' env' (Some token') db'' = Some (r, db3) ∧ unauthorized r).
Proof.
  apply (reuse_cascades_forward Scenario.rotated Scenario.env3 Scenario.R1
           "A" "r1" "D1" (retire "r2" (new_session Scenario.env1 "A" "D1")) "r2").
  - exists [Scenario.login_A; Scenario.login_B; Scenario.rotate_R1].
    vm_compute. reflexivity.
  - vm_compute. reflexivity.
  - vm_compute. reflexivity.
  - reflexivity.
  - reflexivity.
Defined.

(** C4. Presenting a refresh token whose row was revoked without a
    successor is rejected with an unauthorized error and the table is left
    exactly as it was: no other row, of this principal or of another, is
    touched. *)
Theorem revoked_without_successor_rejected_in_place db env token sub jti did s fuel :
  jwt_verify token (now env) = Some (RefreshClaims sub jti did) →
  db !! jti = Some s → revoked s = true → replacedBy s = None →
  ∃ db',
    rotateRefresh (S fuel) env (Some token) db =
    Some (Throw (UnauthorizedError "Token has been revoked"), db') ∧
    db' = db ∧ ∀ k, k ≠ jti → db' !! k = db !! k.
Proof.
  intros Hv Hj R Htip. exists db.
  rewrite rotateRefresh_unfold, Hv, Hj, R, revokeFamily_S, Hj, Htip.
  rewrite (mark_revoked_id s R), (insert_id db jti s Hj). done.
Qed.

Lemma revoked_without_successor_rejected_in_place_witness :
  ∃ db',
    rotateRefresh 1 Scenario.env3 (Some Scenario.R1) Scenario.logged_out =
    Some (Throw (UnauthorizedError "Token has been revoked"), db') ∧
    db' = Scenario.logged_out ∧ ∀ k, k ≠ "r1" → db' !! k = Scenario.logged_out !! k.
Proof.
  apply (revoked_without_successor_rejected_in_place Scenario.logged_out Scenario.env3
           Scenario.R1 "A" "r1" "D1" (mark_revoked (new_session Scenario.env1 "A" "D1")) 0).
  - vm_compute. reflexivity.
  - vm_compute. reflexivity.
  - reflexivity.
  - reflexivity.
Defined.

(** C5. A rotation that succeeds presented a verified refresh token, hands
    back a refresh token whose [jti] differs from the presented one, and
    from then on every rotation presenting the old [jti] is rejected as
    unauthorized, whatever calls are served in between. *)
Theorem rotation_retires_presented_jti db fuel env token pair db' :
  reachable db →
  rotateRefresh fuel env (Some token) db = Some (Return pair, db') →
  ∃ sub old did new,
    jwt_verify token (now env) = Some (RefreshClaims sub old did) ∧
    payload_jti (jwt_decode (refreshToken pair)) = Some new ∧
    new ≠ old ∧
    ∀ calls db'' env' token',
      exec calls db' = Some db'' →
      payload_jti (claims token') = Some old →
      ∃ fuel' db3 r,
        rotateRefresh fuel' env' (Some token') db'' = Some (r, db3) ∧ unauthorized r.
Proof.
  intros Hreach Hrot.
  assert (well_formed db') as Hwf'.
  { eapply (call_well_formed
              {| call_fuel := fuel; call_env := env; call_op := OpRotateRefresh (Some token) |});
      [by apply reachable_well_formed |].
    unfold run_call, after; cbn [call_op call_env call_fuel]. by rewrite Hrot. }
  rewrite rotateRefresh_unfold in Hrot.
  destruct (jwt_verify token (now env)) as [[sub | sub old did | sub] |]; try done.
  destruct (db !! old) as [s |] eqn:Hold; [| done].
  destruct (revoked s) eqn:R.
  { destruct (revokeFamily fuel old db) as [[] |]; done. }
  destruct (db !! uuid env) eqn:Hnew; [done |].
  simplify_eq.
  exists sub, old, did, (uuid env). split; [done |]. split; [done |].
  split; [congruence |].
  intros calls db'' env' token' Hexec Hjti.
  eapply (rotate_revoked_rejected_later _ old (retire (uuid env) s));
    [exact Hwf' | apply lookup_insert_eq | done | exact Hexec | exact Hjti].
Qed.

Lemma rotation_retires_presented_jti_witness :
  ∃ sub old did new,
    jwt_verify Scenario.R1 (now Scenario.env2) = Some (RefreshClaims sub old did) ∧
    payload_jti (jwt_decode (refreshToken (new_pair Scenario.env2 "A" "D1"))) = Some new ∧
    new ≠ old ∧
    ∀ calls db'' env' token',
      exec calls Scenario.rotated = Some db'' →
      payload_jti (claims token') = Some old →
      ∃ fuel' db3 r,
        rotateRefresh fuel' env' (Some token') db'' = Some (r, db3) ∧ unauthorized r.
Proof.
  apply (rotation_retires_presented_jti Scenario.logged_in 0 Scenario.env2 Scenario.R1
           (new_pair Scenario.env2 "A" "D1") Scenario.rotated).
  - exists [Scenario.login_A; Scenario.login_B]. vm_compute. reflexivity.
  - vm_compute. reflexivity.
Defined.

(* ===================================================================== *)
(** * The successor link                                                  *)
(* ===================================================================== *)

(** C6. In every reachable table a row that is not revoked has no
    successor, and a row that has a successor is never changed again by
    any sequence of calls.  Across any one call from such a table: a
    successor that is set stays what it is; a successor appears only on a
    row that was active, through [rotateRefresh], together with
    [revoked = true]; [issueTokens], [logout], [logoutAllDevices] and
    [revokeFamily] leave every successor as they found it; and a row that
    is created starts active and without successor. *)
Theorem successor_set_once_by_rotation db :
  reachable db →
  active_has_no_successor db ∧
  (∀ calls db' j s k,
     exec calls db = Some db' → db !! j = Some s → replacedBy s = Some k →
     db' !! j = Some s) ∧
  ∀ c db', run_call c db = Some db' →
    (∀ j s, db !! j = Some s →
       ∃ s', db' !! j = Some s' ∧
         (∀ k, replacedBy s = Some k → replacedBy s' = Some k) ∧
         (replacedBy s' ≠ replacedBy s →
            replacedBy s = None ∧ revoked s = false ∧ revoked s' = true ∧
            ∃ token, call_op c = OpRotateRefresh token) ∧
         match call_op c with
         | OpRotateRefresh _ => True
         | _ => replacedBy s' = replacedBy s
         end) ∧
    (∀ j s', db !! j = None → db' !! j = Some s' →
       revoked s' = false ∧ replacedBy s' = None).
Proof.
  intros Hreach. destruct (reachable_well_formed db Hreach) as [Hact _].
  split; [exact Hact |]. split.
  { intros calls db' j s k Hexec Hj Hk. eapply exec_keeps_revoked; [exact Hexec | exact Hj |].
    destruct (revoked s) eqn:R; [done |]. rewrite (Hact j s Hj R) in Hk. done. }
  intros c db' Hrun. split.
  - intros j s Hj. pose proof (call_effect c db db' j Hrun) as Hch.
    rewrite Hj in Hch.
    inversion Hch as [o | s0 R Hop | s0 token newJti R Hop Hnew | row]; simplify_eq.
    + exists s. split; [done |]. split; [done |]. split; [done |]. by destruct (call_op c).
    + exists (mark_revoked s). split; [done |]. split; [done |]. split; [done |].
      by destruct (call_op c).
    + exists (retire newJti s). split; [done |].
      pose proof (Hact j s Hj R) as Hnone. split; [intros k; congruence |].
      split; [| by rewrite Hop]. intros _. eauto.
  - intros j s' Hj Hj'. pose proof (call_effect c db db' j Hrun) as Hch.
    rewrite Hj, Hj' in Hch. inversion Hch as [| | | row Hfresh]; simplify_eq.
    exact Hfresh.
Qed.

Lemma successor_set_once_by_rotation_witness :
  active_has_no_successor Scenario.rotated ∧
  (∀ calls db' j s k,
     exec calls Scenario.rotated = Some db' → Scenario.rotated !! j = Some s →
     replacedBy s = Some k → db' !! j = Some s) ∧
  ∀ c db', run_call c Scenario.rotated = Some db' →
    (∀ j s, Scenario.rotated !! j = Some s →
       ∃ s', db' !! j = Some s' ∧
         (∀ k, replacedBy s = Some k → replacedBy s' = Some k) ∧
         (replacedBy s' ≠ replacedBy s →
            replacedBy s = None ∧ revoked s = false ∧ revoked s' = true ∧
            ∃ token, call_op c = OpRotateRefresh token) ∧
         match call_op c with
         | OpRotateRefresh _ => True
         | _ => replacedBy s' = replacedBy s
         end) ∧
    (∀ j s', Scenario.rotated !! j = None → db' !! j = Some s' →
       revoked s' = false ∧ replacedBy s' = None).
Proof.
  apply (successor_set_once_by_rotation Scenario.rotated).
  exists [Scenario.login_A; Scenario.login_B; Scenario.rotate_R1].
  vm_compute. reflexivity.
Defined.

(* ===================================================================== *)
(** * Logout                                                              *)
(* ===================================================================== *)

Lemma owned_active_spec uid s :
  owned_active uid s = true ↔ userId s = uid ∧ revoked s = false.
Proof.
  unfold owned_active. rewrite andb_true_iff, bool_decide_eq_true, negb_true_iff. done.
Qed.

(** C7. [logoutAllDevices] resolves with the number of rows of the
    principal that were not revoked, which is the number of rows it
    changed; afterwards every row of the principal is revoked (and
    otherwise as before), every row of another principal is untouched, no
    row is added, and rotation with the identifier of any of the
    principal's rows is rejected as unauthorized from then on. *)
Theorem logoutAll_revokes_principal_only db uid :
  reachable db →
  ∃ db',
    logoutAllDevices uid db =
      Some (Return {| all_success := true;
                      revokedSessions :=
                        size (filter (λ kv, userId kv.2 = uid ∧ revoked kv.2 = false) db) |},
            db') ∧
    size (filter (λ kv, userId kv.2 = uid ∧ revoked kv.2 = false) db) =
      size (filter (λ kv, db' !! kv.1 ≠ Some kv.2) db) ∧
    (∀ j s, db !! j = Some s → userId s = uid → db' !! j = Some (mark_revoked s)) ∧
    (∀ j s, db !! j = Some s → userId s ≠ uid → db' !! j = Some s) ∧
    (∀ j, db !! j = None → db' !! j = None) ∧
    (∀ j s calls db'' env token,
       db !! j = Some s → userId s = uid →
       exec calls db' = Some db'' →
       payload_jti (claims token) = Some j →
       ∃ fuel db3 r,
         rotateRefresh fuel env (Some token) db'' = Some (r, db3) ∧ unauthorized r).
Proof.
  intros Hreach.
  set (db' := (λ s, if owned_active uid s then mark_revoked s else s) <$> db).
  assert (∀ j s, db !! j = Some s → userId s = uid → db' !! j = Some (mark_revoked s)) as Hown.
  { intros j s Hj Hu. unfold db'. rewrite logoutAll_lookup, Hj. simpl.
    destruct (owned_active uid s) eqn:Hc; [done |].
    destruct (revoked s) eqn:R; [by rewrite mark_revoked_id |].
    assert (owned_active uid s = true) by by apply owned_active_spec. congruence. }
  assert (∀ j s, db !! j = Some s → userId s ≠ uid → db' !! j = Some s) as Hother.
  { intros j s Hj Hu. unfold db'. rewrite logoutAll_lookup, Hj. simpl.
    destruct (owned_active uid s) eqn:Hc; [| done].
    apply owned_active_spec in Hc as [? _]. done. }
  assert (filter (λ kv, owned_active uid kv.2 = true) db =
          filter (λ kv, userId kv.2 = uid ∧ revoked kv.2 = false) db) as Hcount.
  { apply map_filter_ext. intros j s _. apply owned_active_spec. }
  exists db'. split.
  { rewrite logoutAllDevices_unfold. by rewrite Hcount. }
  split.
  { f_equal. apply map_filter_ext. intros j s Hj. simpl. split.
    - intros [Hu R]. rewrite (Hown j s Hj Hu). intros E. simplify_eq.
      assert (revoked (mark_revoked s) = revoked s) as E' by by f_equal.
      rewrite mark_revoked_revoked, R in E'. done.
    - intros Hne. destruct (decide (userId s = uid)) as [Hu | Hu].
      + split; [done |]. destruct (revoked s) eqn:R; [| done].
        rewrite (Hown j s Hj Hu), mark_revoked_id in Hne; done.
      + by rewrite (Hother j s Hj Hu) in Hne. }
  split; [exact Hown |]. split; [exact Hother |]. split.
  { intros j Hj. unfold db'. by rewrite logoutAll_lookup, Hj. }
  intros j s calls db'' env token Hj Hu Hexec Hjti.
  eapply (rotate_revoked_rejected_later db' j (mark_revoked s));
    [| by apply Hown | done | exact Hexec | exact Hjti].
  eapply (call_well_formed
            {| call_fuel := 0; call_env := env; call_op := OpLogoutAllDevices uid |});
    [by apply reachable_well_formed |].
  unfold run_call, after; cbn [call_op call_env call_fuel].
  by rewrite logoutAllDevices_unfold.
Qed.

Lemma logoutAll_revokes_principal_only_witness :
  ∃ db',
    logoutAllDevices "A" Scenario.rotated =
      Some (Return {| all_success := true;
                      revokedSessions :=
                        size (filter (λ kv, userId kv.2 = "A" ∧ revoked kv.2 = false)
                                Scenario.rotated) |},
            db') ∧
    size (filter (λ kv, userId kv.2 = "A" ∧ revoked kv.2 = false) Scenario.rotated) =
      size (filter (λ kv, db' !! kv.1 ≠ Some kv.2) Scenario.rotated) ∧
    (∀ j s, Scenario.rotated !! j = Some s → userId s = "A" →
            db' !! j = Some (mark_revoked s)) ∧
    (∀ j s, Scenario.rotated !! j = Some s → userId s ≠ "A" → db' !! j = Some s) ∧
    (∀ j, Scenario.rotated !! j = None → db' !! j = None) ∧
    (∀ j s calls db'' env token,
       Scenario.rotated !! j = Some s → userId s = "A" →
       exec calls db' = Some db'' →
       payload_jti (claims token) = Some j →
       ∃ fuel db3 r,
         rotateRefresh fuel env (Some token) db'' = Some (r, db3) ∧ unauthorized r).
Proof.
  apply (logoutAll_revokes_principal_only Scenario.rotated "A").
  exists [Scenario.login_A; Scenario.login_B; Scenario.rotate_R1].
  vm_compute. reflexivity.
Defined.

(** C9. [logout] resolves with [{ success: true }] on every input and
    never throws.  With no token, a token that does not verify (malformed,
    forged, expired), a verified token without [jti] (an access or temp
    token), or a verified token whose [jti] names no row, the table is
    left as it was.  With a verified token whose row exists, that row is
    marked revoked, its successor is left as it was, and no other row
    changes. *)
Theorem logout_always_succeeds env token db :
  ∃ db',
    logout env token db = Some (Return {| success := true |}, db') ∧
    (token = None → db' = db) ∧
    (∀ t, token = Some t → jwt_verify t (now env) = None → db' = db) ∧
    (∀ t p, token = Some t → jwt_verify t (now env) = Some p →
            payload_jti p = None → db' = db) ∧
    (∀ t p j, token = Some t → jwt_verify t (now env) = Some p →
              payload_jti p = Some j → db !! j = None → db' = db) ∧
    (∀ t p j s, token = Some t → jwt_verify t (now env) = Some p →
                payload_jti p = Some j → db !! j = Some s →
                db' !! j = Some (mark_revoked s) ∧
                revoked (mark_revoked s) = true ∧
                replacedBy (mark_revoked s) = replacedBy s ∧
                ∀ k, k ≠ j → db' !! k = db !! k).
Proof.
  exists (logout_table env token db). split; [apply logout_unfold |].
  unfold logout_table.
  split; [by intros -> |].
  split; [intros t -> Hv; by rewrite Hv |].
  split; [intros t p -> Hv Hp; by rewrite Hv, Hp |].
  split; [intros t p j -> Hv Hp Hj; by rewrite Hv, Hp, Hj |].
  intros t p j s -> Hv Hp Hj. rewrite Hv, Hp, Hj.
  split; [apply lookup_insert_eq |]. split; [done |]. split; [done |].
  intros k Hk. by rewrite lookup_insert_ne.
Qed.

Lemma logout_always_succeeds_witness :
  ∃ db',
    logout Scenario.env3 (Some Scenario.R2) Scenario.rotated =
      Some (Return {| success := true |}, db') ∧
    db' !! "r2" = Some (mark_revoked (new_session Scenario.env2 "A" "D1")).
Proof.
  destruct (logout_always_succeeds Scenario.env3 (Some Scenario.R2) Scenario.rotated)
    as (db' & Hrun & _ & _ & _ & _ & Hrow).
  exists db'. split; [exact Hrun |].
  apply (Hrow Scenario.R2 (RefreshClaims "A" "r2" "D1") "r2"
           (new_session Scenario.env2 "A" "D1")); vm_compute; reflexivity.
Defined.

(* ===================================================================== *)
(** * Rotation between its awaits, and two rotations in flight            *)
(* ===================================================================== *)

(** A call that is resumed three times in a row, nothing else touching the
    table, is [rotateRefresh]. *)
Lemma rotate_run_alone fuel env token db :
  rotate_run 3 fuel env (Presented token) db =
  (λ res, (Settled res.1, res.2)) <$> rotateRefresh fuel env token db.
Proof.
  rewrite rotateRefresh_unfold. cbn [rotate_run rotate_step].
  destruct token as [t |]; [| done].
  destruct (jwt_verify t (now env)) as [[sub | sub jti did | sub] |]; try done.
  destruct (db !! jti) as [s |] eqn:Hs; [| done].
  destruct (revoked s) eqn:R.
  - cbn [rotate_step]. unfold resume.
    destruct (revokeFamily fuel jti db) as [[r db'] |] eqn:Hrun; [| done].
    apply revokeFamily_effect in Hrun as [-> _]. done.
  - cbn [rotate_step]. rewrite issueTokens_effect.
    destruct (db !! uuid env) eqn:Hnew; [done |].
    cbn [resume rotate_step new_pair refreshToken jwt_decode jwt_sign claims payload_jti].
    unfold session_update. assert (jti ≠ uuid env) by congruence.
    rewrite lookup_insert_ne by done. by rewrite Hs.
Qed.

(** The update that retires the old row, taken by itself. *)
Lemma retiring_step fuel env jti newTokens newJti db s :
  db !! jti = Some s →
  payload_jti (jwt_decode (refreshToken newTokens)) = Some newJti →
  rotate_step fuel env (Retiring jti newTokens) db =
  Some (Settled (Return newTokens), <[jti := retire newJti s]> db).
Proof.
  intros Hj Hnew. cbn [rotate_step]. rewrite Hnew. unfold session_update. by rewrite Hj.
Qed.

(** C2, as the code has it.  The update inside [rotateRefresh] knows no
    [AlreadyRotated]: on a row that already has a successor it succeeds
    and writes the new one.  What keeps a successor from being overwritten
    is the read before it: from a reachable table, a call served alone
    leaves every row that has a successor as it is, and if it presents
    that row's token it is rejected with an unauthorized error. *)
Theorem successor_kept_when_served_alone db jti s k :
  reachable db → db !! jti = Some s → replacedBy s = Some k →
  (∀ fuel env token r db',
     rotateRefresh fuel env token db = Some (r, db') → db' !! jti = Some s) ∧
  (∀ env t sub did,
     jwt_verify t (now env) = Some (RefreshClaims sub jti did) →
     ∃ fuel db', ∀ fuel', (fuel ≤ fuel')%nat →
       rotateRefresh fuel' env (Some t) db =
       Some (Throw (UnauthorizedError "Token has been revoked"), db')) ∧
  (∀ fuel env newTokens newJti,
     payload_jti (jwt_decode (refreshToken newTokens)) = Some newJti →
     rotate_step fuel env (Retiring jti newTokens) db =
     Some (Settled (Return newTokens), <[jti := retire newJti s]> db)).
Proof.
  intros Hreach Hj Hk.
  pose proof (reachable_well_formed db Hreach) as Hwf.
  assert (revoked s = true) as R.
  { destruct (revoked s) eqn:R; [done |]. rewrite (proj1 Hwf jti s Hj R) in Hk. done. }
  split; [| split].
  - intros fuel env token r db' Hrot.
    eapply (call_keeps_revoked
              {| call_fuel := fuel; call_env := env; call_op := OpRotateRefresh token |});
      [| exact Hj | exact R].
    unfold run_call, after; cbn [call_op call_env call_fuel]. by rewrite Hrot.
  - intros env t sub did Hv.
    destruct (revokeFamily_terminates db jti (proj2 Hwf jti)) as (fuel & db' & Hrun).
    exists fuel, db'. intros fuel' Hle. rewrite rotateRefresh_unfold, Hv, Hj, R.
    by rewrite (revokeFamily_fuel_mono fuel fuel' jti db _ Hle Hrun).
  - intros fuel env newTokens newJti Hnew. by apply retiring_step.
Qed.

Lemma successor_kept_when_served_alone_witness :
  (∀ fuel env token r db',
     rotateRefresh fuel env token Scenario.rotated = Some (r, db') →
     db' !! "r1" = Some (retire "r2" (new_session Scenario.env1 "A" "D1"))) ∧
  (∀ env t sub did,
     jwt_verify t (now env) = Some (RefreshClaims sub "r1" did) →
     ∃ fuel db', ∀ fuel', (fuel ≤ fuel')%nat →
       rotateRefresh fuel' env (Some t) Scenario.rotated =
       Some (Throw (UnauthorizedError "Token has been revoked"), db')) ∧
  (∀ fuel env newTokens newJti,
     payload_jti (jwt_decode (refreshToken newTokens)) = Some newJti →
     rotate_step fuel env (Retiring "r1" newTokens) Scenario.rotated =
     Some (Settled (Return newTokens),
           <["r1" := retire newJti (retire "r2" (new_session Scenario.env1 "A" "D1"))]>
             Scenario.rotated)).
Proof.
  apply (successor_kept_when_served_alone Scenario.rotated "r1"
           (retire "r2" (new_session Scenario.env1 "A" "D1")) "r2").
  - exists [Scenario.login_A; Scenario.login_B; Scenario.rotate_R1].
    vm_compute. reflexivity.
  - vm_compute. reflexivity.
  - reflexivity.
Defined.

(** C2, as the claim has it, fails: with two calls in flight the second
    reaches its update when R1's row already has the successor [r2]; the
    update does not fail, and the row's successor becomes [r3]. *)
Lemma retiring_overwrites_successor :
  interleave Scenario.before_second_update 0 Scenario.env2 Scenario.env3 Scenario.double_fire =
    Some {| task1 := Settled (Return (new_pair Scenario.env2 "A" "D1"));
            task2 := Retiring "r1" (new_pair Scenario.env3 "A" "D1");
            table := Scenario.second_about_to_retire |} ∧
  replacedBy <$> Scenario.second_about_to_retire !! "r1" = Some (Some "r2") ∧
  ∃ db',
    rotate_step 0 Scenario.env3 (Retiring "r1" (new_pair Scenario.env3 "A" "D1"))
      Scenario.second_about_to_retire =
      Some (Settled (Return (new_pair Scenario.env3 "A" "D1")), db') ∧
    replacedBy <$> db' !! "r1" = Some (Some "r3").
Proof.
  split; [vm_compute; reflexivity |]. split; [vm_compute; reflexivity |].
  eexists. split; vm_compute; reflexivity.
Qed.

(** C3, as the code has it.  When the second of two calls presenting the
    same token is served after the first has settled, the first receives
    a fresh pair and the second is rejected as unauthorized; the parent
    keeps the first call's row as its only successor, no further row is
    created, and the first call's row is revoked by the cascade. *)
Theorem second_call_after_first_settled db env1 env2 token sub jti did s fuel :
  jwt_verify token (now env1) = Some (RefreshClaims sub jti did) →
  jwt_verify token (now env2) = Some (RefreshClaims sub jti did) →
  db !! jti = Some s → revoked s = false →
  db !! uuid env1 = None →
  ∃ r,
    interleave [First; First; First; Second; Second; Second] (S (S fuel)) env1 env2
      {| task1 := Presented (Some token); task2 := Presented (Some token); table := db |}
    = Some r ∧
    fresh_pair (task1 r) = Some (new_pair env1 sub did) ∧
    rejected (task2 r) = Some (UnauthorizedError "Token has been revoked") ∧
    table r !! jti = Some (retire (uuid env1) s) ∧
    table r !! uuid env1 = Some (mark_revoked (new_session env1 sub did)) ∧
    ∀ k, k ≠ uuid env1 → table r !! k = None ↔ db !! k = None.
Proof.
  intros Hv1 Hv2 Hj R Hnew.
  assert (jti ≠ uuid env1) as Hne by congruence.
  set (db1 := <[uuid env1 := new_session env1 sub did]> db).
  set (db2 := <[jti := retire (uuid env1) s]> db1).
  set (db3 := <[uuid env1 := mark_revoked (new_session env1 sub did)]>
                (<[jti := mark_revoked (retire (uuid env1) s)]> db2)).
  assert (db1 !! jti = Some s) as Hj1.
  { unfold db1. by rewrite lookup_insert_ne. }
  assert (revokeFamily (S (S fuel)) jti db2 = Some (Return (), db3)) as Hcascade.
  { rewrite revokeFamily_S. unfold db2 at 1. rewrite lookup_insert_eq.
    cbn [retire apply_data replacedBy data_replacedBy].
    rewrite revokeFamily_S. rewrite lookup_insert_ne by done.
    unfold db2 at 1. rewrite lookup_insert_ne by done.
    unfold db1 at 1. rewrite lookup_insert_eq. done. }
  exists {| task1 := Settled (Return (new_pair env1 sub did));
            task2 := Settled (Throw (UnauthorizedError "Token has been revoked"));
            table := db3 |}.
  split.
  { cbn [interleave task1 task2 table rotate_step]. rewrite Hv1, Hj, R.
    cbn [interleave task1 task2 table rotate_step]. rewrite issueTokens_effect, Hnew.
    cbn [resume interleave task1 task2 table].
    rewrite (retiring_step _ _ jti _ (uuid env1) _ s Hj1) by done.
    fold db1 db2. cbn [interleave task1 task2 table rotate_step]. rewrite Hv2.
    unfold db2 at 1. rewrite lookup_insert_eq.
    cbn [retire apply_data revoked data_revoked].
    fold (retire (uuid env1) s). fold db2.
    cbn [interleave task1 task2 table rotate_step]. rewrite Hcascade.
    reflexivity. }
  cbn [task1 task2 table fresh_pair rejected].
  split; [done |]. split; [done |]. split.
  { unfold db3. rewrite lookup_insert_ne by done. rewrite lookup_insert_eq.
    by rewrite mark_revoked_id. }
  split; [unfold db3; apply lookup_insert_eq |].
  intros k Hk. unfold db3, db2, db1. rewrite lookup_insert_ne by done.
  destruct (decide (jti = k)) as [<- | Hjk].
  - rewrite lookup_insert_eq, Hj. done.
  - rewrite !lookup_insert_ne by done. done.
Qed.

Lemma second_call_after_first_settled_witness :
  ∃ r,
    interleave [First; First; First; Second; Second; Second] 2 Scenario.env2 Scenario.env3
      Scenario.double_fire = Some r ∧
    fresh_pair (task1 r) = Some (new_pair Scenario.env2 "A" "D1") ∧
    rejected (task2 r) = Some (UnauthorizedError "Token has been revoked") ∧
    table r !! "r1" = Some (retire "r2" (new_session Scenario.env1 "A" "D1")) ∧
    table r !! "r2" = Some (mark_revoked (new_session Scenario.env2 "A" "D1")) ∧
    ∀ k, k ≠ "r2" → table r !! k = None ↔ Scenario.logged_in !! k = None.
Proof.
  apply (second_call_after_first_settled Scenario.logged_in Scenario.env2 Scenario.env3
           Scenario.R1 "A" "r1" "D1" (new_session Scenario.env1 "A" "D1") 0).
  - vm_compute. reflexivity.
  - vm_compute. reflexivity.
  - vm_compute. reflexivity.
  - reflexivity.
  - vm_compute. reflexivity.
Defined.

(** C3, as the claim has it, fails: when both calls read R1's row before
    either updates it, both receive a fresh pair; the second call installs
    its row [r3] as the parent's successor in place of [r2], and the row
    of the call that was first is neither revoked nor linked from
    anywhere. *)
Lemma double_fire_both_win :
  ∃ r,
    interleave Scenario.both_read_first 0 Scenario.env2 Scenario.env3 Scenario.double_fire
      = Some r ∧
    fresh_pair (task1 r) = Some (new_pair Scenario.env2 "A" "D1") ∧
    fresh_pair (task2 r) = Some (new_pair Scenario.env3 "A" "D1") ∧
    table r !! "r1" = Some (retire "r3" (new_session Scenario.env1 "A" "D1")) ∧
    table r !! "r2" = Some (new_session Scenario.env2 "A" "D1") ∧
    table r !! "r3" = Some (new_session Scenario.env3 "A" "D1").
Proof.
  eexists. split; [vm_compute; reflexivity |].
  repeat split; vm_compute; reflexivity.
Qed.

(* ===================================================================== *)
(** * Login, second factor, and the user objects handed back              *)
(* ===================================================================== *)

Lemma sanitizeUser_omits (user : JsObject) :
  sanitizeUser user !! "passwordHash" = None ∧ sanitizeUser user !! "totpSecret" = None.
Proof.
  unfold sanitizeUser. split.
  - apply lookup_delete_eq.
  - rewrite lookup_delete_ne by done. apply lookup_delete_eq.
Qed.

Lemma sanitizeUser_keeps (user : JsObject) k :
  k ≠ "passwordHash" → k ≠ "totpSecret" → sanitizeUser user !! k = user !! k.
Proof.
  intros H1 H2. unfold sanitizeUser. by rewrite !lookup_delete_ne.
Qed.

Lemma on_sessions_issueTokens env uid did db :
  on_sessions (issueTokens env uid did) db =
  match sessions db !! uuid env with
  | None => Some (Return (new_pair env uid did),
                  set_sessions (<[uuid env := new_session env uid did]> (sessions db)) db)
  | Some _ => Some (Throw (PrismaError "P2002"), db)
  end.
Proof.
  unfold on_sessions. rewrite issueTokens_effect.
  destruct (sessions db !! uuid env); [| done]. by destruct db.
Qed.

Lemma truthy_Some s : truthy s = true → ∃ secret, s = Some secret.
Proof. destruct s; [eauto | done]. Qed.

Section AuthFlow.

Variable bcrypt_hash : Env → string → string.
Variable bcrypt_compare : string → string → bool.
Variable totp_check : Z → string → string → bool.

(** [verify2FA] resolves only for a verified temp token of a principal
    whose second factor is on and whose code passes the checker; it then
    hands back the pair [issueTokens] signed and has created its row. *)
Lemma verify2FA_resolves env tempToken code did db res db' :
  verify2FA totp_check env tempToken code did db = Some (Return res, db') →
  ∃ t sub user secret,
    tempToken = Some t ∧
    jwt_verify t (now env) = Some (TempClaims sub) ∧
    users db !! sub = Some user ∧
    twoFAEnabled user = true ∧ totpSecret user = Some secret ∧
    totp_check (now env) code secret = true ∧
    sessions db !! uuid env = None ∧
    res = {| auth_user := sanitizeUser (user_object user);
             auth_tokens := new_pair env (id user) did |} ∧
    db' = set_sessions (<[uuid env := new_session env (id user) did]> (sessions db)) db.
Proof.
  unfold verify2FA. destruct tempToken as [t |]; [| done].
  destruct (String.eqb code ""); [done |].
  destruct (jwt_verify t (now env)) as [[sub | sub jti did' | sub] |] eqn:Hv; try done.
  unfold bind at 1. unfold user_findUnique_id.
  destruct (users db !! sub) as [user |] eqn:Hu; [| done].
  destruct (twoFAEnabled user) eqn:H2fa; [| done].
  destruct (truthy (totpSecret user)) eqn:Hsecret; [| done].
  destruct (truthy_Some _ Hsecret) as [secret Hs]. rewrite Hs.
  change (default "" (Some secret)) with secret. cbn [negb orb].
  destruct (totp_check (now env) code secret) eqn:Hcode; cbn [negb]; [| done].
  unfold bind. rewrite on_sessions_issueTokens.
  destruct (sessions db !! uuid env) eqn:Hfree; [done |].
  unfold ret. intros [= <- <-].
  exists t, sub, user, secret. repeat split; done.
Qed.

(** C8. For a registered principal whose second factor is on (the flag
    is set and a secret is stored), [login] with the right password
    resolves with a challenge carrying a temp token for that principal;
    it returns no token pair and leaves the Session table as it was.
    [verify2FA] resolves with a pair only when the code passes the
    checker against the principal's secret, and with the challenge just
    issued, a passing code within the challenge's lifetime and an unused
    identifier, it does resolve with the pair and creates its row. *)
Theorem login_second_factor_challenge
    env email_ password deviceId_ platform_ userAgent_ db user secret :
  email_ ≠ "" → password ≠ "" →
  user_findUnique_email (toLowerCase email_) db = Some (Return (Some user), db) →
  users db !! id user = Some user →
  bcrypt_compare password (passwordHash user) = true →
  twoFAEnabled user = true → totpSecret user = Some secret → secret ≠ "" →
  ∃ db',
    login bcrypt_compare env email_ password deviceId_ platform_ userAgent_ db =
      Some (Return (Require2FA (signTemp env (id user)) "Please provide 2FA code"), db') ∧
    sessions db' = sessions db ∧
    users db' = users db ∧
    (∀ env' tempToken code did res db'',
       verify2FA totp_check env' tempToken code did db' = Some (Return res, db'') →
       ∃ t sub user' secret',
         tempToken = Some t ∧ jwt_verify t (now env') = Some (TempClaims sub) ∧
         users db !! sub = Some user' ∧ totpSecret user' = Some secret' ∧
         totp_check (now env') code secret' = true) ∧
    (∀ env' code did,
       code ≠ "" →
       (seconds (now env') < seconds (now env) + TEMP_TTL)%Z →
       totp_check (now env') code secret = true →
       sessions db !! uuid env' = None →
       verify2FA totp_check env' (Some (signTemp env (id user))) code did db' =
         Some (Return {| auth_user := sanitizeUser (user_object user);
                         auth_tokens := new_pair env' (id user) did |},
               set_sessions (<[uuid env' := new_session env' (id user) did]> (sessions db))
                 db')).
Proof.
  intros Hemail Hpassword Hfind Hid Hpw H2fa Hsecret Hne.
  apply String.eqb_neq in Hemail, Hpassword, Hne.
  eexists. split.
  { unfold login. rewrite Hemail, Hpassword. cbn [orb].
    unfold bind at 1. rewrite Hfind. rewrite Hpw. cbn [negb].
    unfold bind, device_upsert. rewrite H2fa, Hsecret. cbn [truthy]. rewrite Hne.
    reflexivity. }
  split; [done |]. split; [done |]. split.
  - intros env' tempToken code did res db'' Hrun.
    apply verify2FA_resolves in Hrun
      as (t & sub & user' & secret' & -> & Hv & Hu & _ & Hs & Hc & _).
    exists t, sub, user', secret'. done.
  - intros env' code did Hcode Httl Hcheck Hfree.
    apply String.eqb_neq in Hcode.
    unfold verify2FA. rewrite Hcode.
    assert (jwt_verify (signTemp env (id user)) (now env') = Some (TempClaims (id user)))
      as ->.
    { unfold jwt_verify, signTemp, jwt_sign; cbn [signed exp claims andb].
      apply Z.ltb_lt in Httl. by rewrite Httl. }
    unfold bind at 1. unfold user_findUnique_id. cbn [users set_devices].
    rewrite Hid, H2fa, Hsecret. cbn [truthy]. rewrite Hne.
    change (default "" (Some secret)) with secret. cbn [negb orb].
    rewrite Hcheck. cbn [negb]. unfold bind. rewrite on_sessions_issueTokens.
    cbn [sessions set_devices]. rewrite Hfree. reflexivity.
Qed.

(** C10. The user object handed back by [register], [login],
    [verify2FA] and [getUserById] has neither a [passwordHash] nor a
    [totpSecret] property, whatever the stored row holds (and the row's
    object does carry [passwordHash]). *)
Theorem returned_user_omits_secrets :
  (∀ env email_ password displayName_ age_ db user db',
     register bcrypt_hash env email_ password displayName_ age_ db =
       Some (Return user, db') →
     user !! "passwordHash" = None ∧ user !! "totpSecret" = None) ∧
  (∀ env email_ password deviceId_ platform_ userAgent_ db user tokens db',
     login bcrypt_compare env email_ password deviceId_ platform_ userAgent_ db =
       Some (Return (LoggedIn user tokens), db') →
     user !! "passwordHash" = None ∧ user !! "totpSecret" = None) ∧
  (∀ env tempToken code did db res db',
     verify2FA totp_check env tempToken code did db = Some (Return res, db') →
     auth_user res !! "passwordHash" = None ∧ auth_user res !! "totpSecret" = None) ∧
  (∀ uid db user db',
     getUserById uid db = Some (Return user, db') →
     user !! "passwordHash" = None ∧ user !! "totpSecret" = None) ∧
  (∀ row : User, user_object row !! "passwordHash" = Some (JsString (passwordHash row))).
Proof.
  split; [| split; [| split; [| split]]].
  - intros env email_ password displayName_ age_ db user db'. unfold register.
    destruct (_ || _); [done |]. destruct (_ <? _)%nat; [done |].
    destruct (_ <? _)%Z; [done |].
    unfold bind at 1. unfold user_findUnique_email.
    destruct (snd <$> head _); [done |].
    unfold bind, user_create. cbn [id email].
    destruct (users db !! uuid env); [done |].
    destruct (head _); [done |].
    unfold ret. intros [= <- _]. apply sanitizeUser_omits.
  - intros env email_ password deviceId_ platform_ userAgent_ db user tokens db'.
    unfold login. destruct (_ || _); [done |].
    unfold bind at 1. unfold user_findUnique_email.
    destruct (snd <$> head _) as [row |]; [| done].
    destruct (negb _); [done |].
    unfold bind at 1. unfold device_upsert.
    destruct (_ && _); [done |].
    unfold bind. rewrite on_sessions_issueTokens.
    destruct (sessions _ !! uuid env); [done |].
    unfold ret. intros [= <- _ _]. apply sanitizeUser_omits.
  - intros env tempToken code did db res db' Hrun.
    apply verify2FA_resolves in Hrun
      as (t & sub & user & secret & _ & _ & _ & _ & _ & _ & _ & -> & _).
    apply sanitizeUser_omits.
  - intros uid db user db'. unfold getUserById, bind.
    unfold user_findUnique_id_include_subscription.
    destruct (_ <$> users db !! uid); [| done].
    unfold ret. intros [= <- _]. apply sanitizeUser_omits.
  - intros row. reflexivity.
Qed.

End AuthFlow.

Lemma login_second_factor_challenge_witness :
  ∃ db',
    login Scenario.compare Scenario.env_login "Carol@Example.com" "correct horse"
      "D1" "ios" "agent" Scenario.accounts =
      Some (Return (Require2FA (signTemp Scenario.env_login "u-carol")
                      "Please provide 2FA code"), db') ∧
    sessions db' = ∅ ∧
    verify2FA Scenario.check Scenario.env_code (Some (signTemp Scenario.env_login "u-carol"))
      "492039" "D1" db' =
      Some (Return {| auth_user := sanitizeUser (user_object Scenario.carol);
                      auth_tokens := new_pair Scenario.env_code "u-carol" "D1" |},
            set_sessions (<["s2" := new_session Scenario.env_code "u-carol" "D1"]> ∅) db').
Proof.
  destruct (login_second_factor_challenge Scenario.compare Scenario.check
              Scenario.env_login "Carol@Example.com" "correct horse" "D1" "ios" "agent"
              Scenario.accounts Scenario.carol "JBSWY3DPEHPK3PXP")
    as (db' & Hlogin & Hsessions & _ & _ & Hverify).
  - done.
  - done.
  - vm_compute. reflexivity.
  - vm_compute. reflexivity.
  - vm_compute. reflexivity.
  - reflexivity.
  - reflexivity.
  - done.
  - exists db'. split; [exact Hlogin |]. split; [exact Hsessions |].
    apply (Hverify Scenario.env_code "492039" "D1"); [done | | |]; vm_compute; reflexivity.
Defined.

Lemma returned_user_omits_secrets_witness :
  ∃ db',
    login Scenario.compare Scenario.env_login "dave@example.com" "hunter22"
      "D7" "android" "agent" Scenario.accounts =
      Some (Return (LoggedIn (sanitizeUser (user_object Scenario.dave))
                      (new_pair Scenario.env_login "u-dave" "D7")), db') ∧
    sanitizeUser (user_object Scenario.dave) !! "passwordHash" = None ∧
    sanitizeUser (user_object Scenario.dave) !! "totpSecret" = None.
Proof.
  eexists. split; [vm_compute; reflexivity |].
  eapply (proj1 (proj2 (returned_user_omits_secrets Scenario.hash Scenario.compare
                          Scenario.check))
            Scenario.env_login "dave@example.com" "hunter22" "D7" "android" "agent"
            Scenario.accounts).
  vm_compute. reflexivity.
Defined.

(* ===================================================================== *)
(** * Expired sessions                                                    *)
(* ===================================================================== *)

Lemma cleanupExpiredSessions_unfold env db :
  cleanupExpiredSessions env db =
  Some (Return (size (filter (λ kv, (expiresAt kv.2 <? now env)%Z = true) db)),
        filter (λ kv, (expiresAt kv.2 <? now env)%Z = false) db).
Proof. reflexivity. Qed.

Lemma cleanup_lookup env (db : Sessions) j s :
  filter (λ kv, (expiresAt kv.2 <? now env)%Z = false) db !! j = Some s ↔
  db !! j = Some s ∧ (now env ≤ expiresAt s)%Z.
Proof.
  rewrite map_lookup_filter_Some. simpl. rewrite Z.ltb_ge. done.
Qed.

Lemma cleanup_sizes env (db : Sessions) :
  size db =
  (size (filter (λ kv, (expiresAt kv.2 <? now env)%Z = true) db) +
   size (filter (λ kv, (expiresAt kv.2 <? now env)%Z = false) db))%nat.
Proof.
  rewrite <- (map_filter_union_complement
                (λ kv, (expiresAt kv.2 <? now env)%Z = true) db) at 1.
  rewrite map_size_disj_union by apply map_disjoint_filter_complement.
  f_equal. f_equal. apply map_filter_ext. intros j s _. simpl.
  by destruct (expiresAt s <? now env)%Z.
Qed.

(** X1. [cleanupExpiredSessions] keeps exactly the rows whose [expiresAt]
    is not before the clock, unchanged, and the count it returns is the
    number of rows that are gone. *)
Theorem cleanup_removes_exactly_expired env db :
  ∃ n db',
    cleanupExpiredSessions env db = Some (Return n, db') ∧
    (∀ j s, db' !! j = Some s ↔ db !! j = Some s ∧ (now env ≤ expiresAt s)%Z) ∧
    (size db = n + size db')%nat ∧
    (n = 0%nat → db' = db).
Proof.
  eexists _, _. split; [apply cleanupExpiredSessions_unfold |].
  split; [intros j s; apply cleanup_lookup |].
  split; [apply cleanup_sizes |].
  intros Hn. apply map_size_empty_iff in Hn.
  apply map_eq. intros j. apply option_eq. intros s. rewrite cleanup_lookup.
  split; [tauto |]. intros Hj. split; [done |].
  apply Z.ltb_ge. destruct (expiresAt s <? now env)%Z eqn:E; [| done].
  assert (filter (λ kv, (expiresAt kv.2 <? now env)%Z = true) db !! j = Some s) as Hin.
  { by apply map_lookup_filter_Some. }
  rewrite Hn, lookup_empty in Hin. done.
Qed.

(** No call changes the owner, the device or the expiry of a row. *)
Lemma call_keeps_identity c db db' j s :
  run_call c db = Some db' → db !! j = Some s →
  ∃ s', db' !! j = Some s' ∧ userId s' = userId s ∧ deviceId s' = deviceId s ∧
        expiresAt s' = expiresAt s.
Proof.
  intros Hrun Hj. pose proof (call_effect c db db' j Hrun) as Hch. rewrite Hj in Hch.
  inversion Hch; simplify_eq; eauto.
Qed.

Lemma exec_keeps_identity calls : ∀ db db' j s,
  exec calls db = Some db' → db !! j = Some s →
  ∃ s', db' !! j = Some s' ∧ userId s' = userId s ∧ deviceId s' = deviceId s ∧
        expiresAt s' = expiresAt s.
Proof.
  induction calls as [| c calls IH]; intros db db' j s H Hj; simpl in H.
  - simplify_eq. eauto.
  - destruct (run_call c db) as [db1 |] eqn:Hc; [| done].
    destruct (call_keeps_identity c db db1 j s Hc Hj) as (s1 & Hj1 & Hu & Hd & He).
    destruct (IH db1 db' j s1 H Hj1) as (s' & Hj' & Hu' & Hd' & He').
    exists s'. repeat split; congruence.
Qed.

(** X2. The row of a refresh token that still verifies is never removed
    by [cleanupExpiredSessions]: once [issueTokens] has issued a pair,
    whatever calls are served since, a clean-up at a time when the refresh
    token verifies leaves the token's row in place. *)
Theorem cleanup_spares_live_tokens env uid did db0 pair db1 calls db env' p :
  issueTokens env uid did db0 = Some (Return pair, db1) →
  exec calls db1 = Some db →
  jwt_verify (refreshToken pair) (now env') = Some p →
  ∃ n db' s,
    cleanupExpiredSessions env' db = Some (Return n, db') ∧
    db !! uuid env = Some s ∧ db' !! uuid env = Some s.
Proof.
  intros Hissue Hexec Hv.
  rewrite issueTokens_effect in Hissue.
  destruct (db0 !! uuid env) eqn:Hfree; [done |]. simplify_eq.
  destruct (exec_keeps_identity calls _ db (uuid env) (new_session env uid did) Hexec)
    as (s & Hs & _ & _ & He); [apply lookup_insert_eq |].
  eexists _, _, s. split; [apply cleanupExpiredSessions_unfold |].
  split; [done |]. apply cleanup_lookup. split; [done |].
  rewrite He. unfold jwt_verify in Hv.
  cbn [new_pair refreshToken jwt_sign signed exp andb] in Hv.
  destruct (seconds (now env') <? seconds (now env) + REFRESH_TTL_SECONDS)%Z eqn:Hlt;
    [| done].
  apply Z.ltb_lt in Hlt. cbn [new_session expiresAt].
  unfold seconds, REFRESH_TTL_SECONDS in *. Z.div_mod_to_equations. lia.
Qed.

Lemma cleanup_spares_live_tokens_witness :
  ∃ n db' s,
    cleanupExpiredSessions {| now := 2592001999; uuid := "-" |} Scenario.rotated =
      Some (Return n, db') ∧
    Scenario.rotated !! "r2" = Some s ∧ db' !! "r2" = Some s.
Proof.
  apply (cleanup_spares_live_tokens Scenario.env2 "A" "D1"
           (<["b1" := new_session Scenario.envB "B" "D9"]>
              (<["r1" := retire "r2" (new_session Scenario.env1 "A" "D1")]> ∅))
           (new_pair Scenario.env2 "A" "D1") Scenario.rotated [] Scenario.rotated
           {| now := 2592001999; uuid := "-" |} (RefreshClaims "A" "r2" "D1")).
  - vm_compute. reflexivity.
  - reflexivity.
  - vm_compute. reflexivity.
Defined.

Lemma cleanup_well_formed env (db : Sessions) :
  well_formed db →
  well_formed (filter (λ kv, (expiresAt kv.2 <? now env)%Z = false) db).
Proof.
  intros [Hact Hwalk]. split.
  - intros j s Hj R. apply cleanup_lookup in Hj as [Hj _]. by eapply Hact.
  - intros j. specialize (Hwalk j).
    induction Hwalk as [j Hj | j s Hj Htip | j s next Hj Hnext _ IH].
    + apply walk_missing. apply map_lookup_filter_None. by left.
    + destruct (filter (λ kv, (expiresAt kv.2 <? now env)%Z = false) db !! j)
        as [s' |] eqn:E; [| by apply walk_missing].
      apply cleanup_lookup in E as HE. destruct HE as [E' _]. simplify_eq.
      by eapply walk_tip.
    + destruct (filter (λ kv, (expiresAt kv.2 <? now env)%Z = false) db !! j)
        as [s' |] eqn:E; [| by apply walk_missing].
      apply cleanup_lookup in E as HE. destruct HE as [E' _]. simplify_eq.
      by eapply walk_next.
Qed.

(** X3. A clean-up never makes a revoked token usable again: from a
    reachable table, after [cleanupExpiredSessions], rotation with the
    identifier of a row that was revoked is still rejected as
    unauthorized, whether the row was deleted or kept. *)
Theorem cleanup_keeps_revoked_rejected db j s env env' token :
  reachable db → db !! j = Some s → revoked s = true →
  payload_jti (claims token) = Some j →
  ∃ n db' fuel db'' r,
    cleanupExpiredSessions env db = Some (Return n, db') ∧
    rotateRefresh fuel env' (Some token) db' = Some (r, db'') ∧ unauthorized r.
Proof.
  intros Hreach Hj R Hjti.
  set (db' := filter (λ kv, (expiresAt kv.2 <? now env)%Z = false) db).
  assert (well_formed db') as Hwf' by by apply cleanup_well_formed, reachable_well_formed.
  destruct (db' !! j) as [s' |] eqn:Hj'.
  - apply cleanup_lookup in Hj' as Hkept. destruct Hkept as [Hsame _]. simplify_eq.
    destruct (rotate_revoked_rejected db' j s env' token Hwf' Hj' R Hjti)
      as (fuel & db'' & Hrot).
    destruct (Hrot fuel) as (r & Hr & Hu); [lia |].
    eexists _, db', fuel, db'', r. split; [apply cleanupExpiredSessions_unfold | done].
  - assert (∃ r, rotateRefresh 0 env' (Some token) db' = Some (r, db') ∧ unauthorized r)
      as (r & Hr & Hu).
    { rewrite rotateRefresh_unfold.
      destruct (jwt_verify token (now env')) as [p |] eqn:Hv.
      - apply jwt_verify_claims in Hv as Hp. subst p.
        destruct (claims token) as [sub | sub jti did | sub]; simpl in Hjti; simplify_eq.
        rewrite Hj'. eexists. split; [reflexivity | by eexists].
      - eexists. split; [reflexivity | by eexists]. }
    eexists _, db', 0%nat, db', r.
    split; [apply cleanupExpiredSessions_unfold | done].
Qed.

Lemma cleanup_keeps_revoked_rejected_witness :
  ∃ n db' fuel db'' r,
    cleanupExpiredSessions {| now := 2592001500; uuid := "-" |} Scenario.rotated =
      Some (Return n, db') ∧
    rotateRefresh fuel Scenario.env3 (Some Scenario.R1) db' = Some (r, db'') ∧
    unauthorized r.
Proof.
  apply (cleanup_keeps_revoked_rejected Scenario.rotated "r1"
           (retire "r2" (new_session Scenario.env1 "A" "D1"))).
  - exists [Scenario.login_A; Scenario.login_B; Scenario.rotate_R1].
    vm_compute. reflexivity.
  - vm_compute. reflexivity.
  - reflexivity.
  - reflexivity.
Defined.

(* ===================================================================== *)
(** * Logging out twice                                                   *)
(* ===================================================================== *)

Lemma mark_revoked_idem s : mark_revoked (mark_revoked s) = mark_revoked s.
Proof. reflexivity. Qed.

(** X4. [logoutAllDevices] is idempotent: called again on the table it
    left, it revokes nothing, returns the count 0 and leaves the table as
    it is. *)
Theorem logoutAll_twice uid db :
  ∃ r db',
    logoutAllDevices uid db = Some (Return r, db') ∧
    logoutAllDevices uid db' =
      Some (Return {| all_success := true; revokedSessions := 0 |}, db').
Proof.
  eexists _, _. split; [apply logoutAllDevices_unfold |].
  rewrite logoutAllDevices_unfold.
  set (db' := (λ s, if owned_active uid s then mark_revoked s else s) <$> db).
  assert (∀ j s, db' !! j = Some s → owned_active uid s = false) as Hnone.
  { intros j s. unfold db'. rewrite logoutAll_lookup.
    destruct (db !! j) as [s0 |]; [| done]. simpl. intros [= <-].
    destruct (owned_active uid s0) eqn:Hc; [| done].
    unfold owned_active. cbn. by rewrite andb_false_r. }
  assert (filter (λ kv, owned_active uid kv.2 = true) db' = ∅) as ->.
  { apply map_empty_filter. intros j s Hj. simpl. by rewrite (Hnone j s Hj). }
  rewrite map_size_empty. do 2 f_equal.
  apply map_eq. intros j. rewrite lookup_fmap.
  destruct (db' !! j) as [s |] eqn:Hj; [| done]. simpl. by rewrite (Hnone j s Hj).
Qed.

(** X5. [logout] is idempotent: a second logout with the same token, at
    the same or a later time, succeeds again and leaves the table as the
    first one left it. *)
Theorem logout_twice env1 env2 token db :
  (now env1 ≤ now env2)%Z →
  ∃ db',
    logout env1 token db = Some (Return {| success := true |}, db') ∧
    logout env2 token db' = Some (Return {| success := true |}, db').
Proof.
  intros Hclock.
  exists (logout_table env1 token db). split; [apply logout_unfold |].
  rewrite logout_unfold. do 2 f_equal.
  unfold logout_table. destruct token as [t |]; [| done].
  destruct (jwt_verify t (now env2)) as [p2 |] eqn:Hv2; [| done].
  assert (jwt_verify t (now env1) = Some p2) as ->.
  { unfold jwt_verify in *. destruct (signed t); [| done]. cbn [andb] in *.
    destruct (seconds (now env2) <? exp t)%Z eqn:H2; [| done].
    apply Z.ltb_lt in H2.
    assert ((seconds (now env1) <? exp t)%Z = true) as ->; [| done].
    apply Z.ltb_lt. unfold seconds in *. Z.div_mod_to_equations. lia. }
  destruct (payload_jti p2) as [j |] eqn:Hj; [| done].
  destruct (db !! j) as [s |] eqn:Hs.
  - rewrite lookup_insert_eq, mark_revoked_idem. apply insert_insert_eq.
  - by rewrite Hs.
Qed.

Lemma logout_twice_witness :
  ∃ db',
    logout Scenario.env2 (Some Scenario.R1) Scenario.logged_in =
      Some (Return {| success := true |}, db') ∧
    logout Scenario.env3 (Some Scenario.R1) db' = Some (Return {| success := true |}, db').
Proof.
  apply (logout_twice Scenario.env2 Scenario.env3 (Some Scenario.R1) Scenario.logged_in).
  vm_compute. discriminate.
Defined.

(* ===================================================================== *)
(** * Request authentication                                              *)
(* ===================================================================== *)

Lemma substring_all s : String.substring 0 (String.length s) s = s.
Proof. induction s as [| c s IH]; simpl; [done | by rewrite IH]. Qed.

Lemma slice_app p r : slice (String.length p) (p ++ r) = r.
Proof.
  unfold slice. induction p as [| c p IH]; simpl.
  - rewrite Nat.sub_0_r. apply substring_all.
  - exact IH.
Qed.

Lemma prefix_app p r : String.prefix p (p ++ r) = true.
Proof.
  induction p as [| c p IH]; simpl; [by destruct r |].
  destruct (Ascii.ascii_dec c c); [exact IH | done].
Qed.

Lemma prefix_split p : ∀ s,
  String.prefix p s = true → s = p ++ slice (String.length p) s.
Proof.
  induction p as [| c p IH]; intros s H.
  - unfold slice. simpl. by rewrite Nat.sub_0_r, substring_all.
  - destruct s as [| c' s]; [done |]. simpl in H.
    destruct (Ascii.ascii_dec c c') as [<- |]; [| done].
    simpl. f_equal. rewrite (IH s H) at 1. done.
Qed.

Lemma jwt_verify_result_spec t ms :
  jwt_verify t ms =
  match jwt_verify_result t ms with
  | inr p => Some p
  | inl _ => None
  end.
Proof.
  unfold jwt_verify, jwt_verify_result. destruct (signed t); [| done].
  by destruct (seconds ms <? exp t)%Z.
Qed.

Section RequestAuthentication.

Variable jwt_parse : string → Jwt.

(** The header [authenticate] accepts, taken apart. *)
Lemma authenticate_bearer env t :
  authenticate jwt_parse env (Some ("Bearer " ++ t)) =
  if String.eqb t "" then Throw (UnauthorizedError "Token not provided")
  else
    match jwt_verify_result (jwt_parse t) (now env) with
    | inl TokenExpiredError => Throw (UnauthorizedError "Token expired")
    | inl JsonWebTokenError => Throw (UnauthorizedError "Invalid token")
    | inr (AccessClaims sub) => Return sub
    | inr _ => Throw (UnauthorizedError "Invalid token type")
    end.
Proof.
  unfold authenticate.
  change (String.eqb ("Bearer " ++ t) "") with false.
  rewrite (prefix_app "Bearer " t). cbn [negb].
  replace (slice 7 ("Bearer " ++ t)) with t by (symmetry; exact (slice_app "Bearer " t)).
  done.
Qed.

Lemma authenticate_header_shape env h uid :
  authenticate jwt_parse env h = Return uid →
  ∃ t, h = Some ("Bearer " ++ t).
Proof.
  unfold authenticate. destruct h as [h |]; [| done].
  destruct (String.eqb h ""); [done |].
  destruct (String.prefix "Bearer " h) eqn:Hp; [| done].
  intros _. exists (slice 7 h). f_equal. exact (prefix_split "Bearer " h Hp).
Qed.

(** X6. [authenticate] sets [req.userId] exactly for a header
    ["Bearer " + token] whose non-empty token verifies as an access token,
    and then to the token's subject; whatever else it is given, it fails
    with an [UnauthorizedError]. *)
Theorem authenticate_accepts_access_tokens_only env h :
  (∀ uid,
     authenticate jwt_parse env h = Return uid ↔
     ∃ t, h = Some ("Bearer " ++ t) ∧ t ≠ "" ∧
          jwt_verify (jwt_parse t) (now env) = Some (AccessClaims uid)) ∧
  (∀ e, authenticate jwt_parse env h = Throw e → ∃ msg, e = UnauthorizedError msg).
Proof.
  split.
  - intros uid. split.
    + intros H. destruct (authenticate_header_shape env h uid H) as [t ->].
      exists t. split; [done |]. rewrite authenticate_bearer in H.
      destruct (String.eqb t "") eqn:Ht; [done |]. apply String.eqb_neq in Ht.
      split; [done |]. rewrite jwt_verify_result_spec.
      destruct (jwt_verify_result (jwt_parse t) (now env)) as [[] | [sub | |]];
        simplify_eq; done.
    + intros (t & -> & Ht & Hv). rewrite authenticate_bearer.
      apply String.eqb_neq in Ht. rewrite Ht.
      rewrite jwt_verify_result_spec in Hv.
      destruct (jwt_verify_result (jwt_parse t) (now env)) as [[] | p]; simplify_eq; done.
  - intros e. unfold authenticate. destruct h as [h |]; [| intros [= <-]; eauto].
    destruct (String.eqb h ""); [intros [= <-]; eauto |].
    destruct (negb _); [intros [= <-]; eauto |].
    destruct (String.eqb _ ""); [intros [= <-]; eauto |].
    destruct (jwt_verify_result _ _) as [[] | [sub | |]]; intros [= <-]; eauto.
Qed.

(** X7. [optionalAuthenticate] never fails, and it sets [req.userId] in
    exactly the requests [authenticate] lets through, to the same
    value. *)
Theorem optionalAuthenticate_agrees env h uid :
  optionalAuthenticate jwt_parse env h = Some uid ↔
  authenticate jwt_parse env h = Return uid.
Proof.
  unfold optionalAuthenticate, authenticate. destruct h as [h |]; [| done].
  destruct (String.eqb h ""); [done |]. cbn [orb].
  destruct (negb _); [done |].
  destruct (String.eqb _ ""); [done |].
  rewrite jwt_verify_result_spec.
  destruct (jwt_verify_result _ _) as [[] | [sub | |]]; split; intros; simplify_eq; done.
Qed.

(** X8. The Socket.IO handshake admits a token exactly when
    [authenticate] admits the header ["Bearer " + token], and for the
    same user. *)
Theorem socket_authenticate_agrees env t uid :
  socket_authenticate jwt_parse env (Some t) = inr uid ↔
  authenticate jwt_parse env (Some ("Bearer " ++ t)) = Return uid.
Proof.
  rewrite authenticate_bearer. unfold socket_authenticate.
  destruct (String.eqb t ""); [done |].
  rewrite jwt_verify_result_spec.
  destruct (jwt_verify_result _ _) as [[] | [sub | |]]; split; intros; simplify_eq; done.
Qed.

(** X10. The access token [issueTokens] hands out authenticates its
    principal for fifteen minutes and fails as expired from then on; the
    Session table plays no part in it. *)
Theorem issued_access_token_lifetime env uid did db pair db' s env' :
  issueTokens env uid did db = Some (Return pair, db') →
  s ≠ "" → jwt_parse s = accessToken pair →
  authenticate jwt_parse env' (Some ("Bearer " ++ s)) =
  if (seconds (now env') <? seconds (now env) + 15 * 60)%Z then Return uid
  else Throw (UnauthorizedError "Token expired").
Proof.
  intros Hissue Hs Hparse. rewrite issueTokens_effect in Hissue.
  destruct (db !! uuid env); [done |]. simplify_eq.
  rewrite authenticate_bearer. apply String.eqb_neq in Hs. rewrite Hs, Hparse.
  unfold jwt_verify_result. cbn [new_pair accessToken jwt_sign signed exp claims negb].
  by destruct (seconds (now env') <? _)%Z.
Qed.

End RequestAuthentication.

Lemma issued_access_token_lifetime_witness :
  authenticate (λ _, accessToken (new_pair Scenario.env1 "A" "D1"))
    {| now := 900999; uuid := "-" |} (Some ("Bearer " ++ "eyJ")) = Return "A" ∧
  authenticate (λ _, accessToken (new_pair Scenario.env1 "A" "D1"))
    {| now := 901000; uuid := "-" |} (Some ("Bearer " ++ "eyJ")) =
    Throw (UnauthorizedError "Token expired").
Proof.
  split.
  - apply (issued_access_token_lifetime
             (λ _, accessToken (new_pair Scenario.env1 "A" "D1"))
             Scenario.env1 "A" "D1" ∅ (new_pair Scenario.env1 "A" "D1")
             (<["r1" := new_session Scenario.env1 "A" "D1"]> ∅) "eyJ"
             {| now := 900999; uuid := "-" |}); [vm_compute; reflexivity | done | done].
  - apply (issued_access_token_lifetime
             (λ _, accessToken (new_pair Scenario.env1 "A" "D1"))
             Scenario.env1 "A" "D1" ∅ (new_pair Scenario.env1 "A" "D1")
             (<["r1" := new_session Scenario.env1 "A" "D1"]> ∅) "eyJ"
             {| now := 901000; uuid := "-" |}); [vm_compute; reflexivity | done | done].
Defined.

(* ===================================================================== *)
(** * Registration and password login                                     *)
(* ===================================================================== *)

#[local] Abbreviation find_email e m :=
  (head (filter (λ kv : string * User, email kv.2 = e) (map_to_list m))).

Lemma find_email_Some (m : gmap string User) e k u :
  find_email e m = Some (k, u) → m !! k = Some u ∧ email u = e.
Proof.
  intros H. apply head_Some_elem_of in H. apply list_elem_of_filter in H as [He Hin].
  apply elem_of_map_to_list in Hin. done.
Qed.

Lemma find_email_None (m : gmap string User) e k u :
  find_email e m = None → m !! k = Some u → email u ≠ e.
Proof.
  intros H Hk He. apply head_None in H.
  apply (filter_nil_not_elem_of _ _ (k, u) H); [done |].
  by apply elem_of_map_to_list.
Qed.

Lemma find_email_found (m : gmap string User) e k u :
  m !! k = Some u → email u = e → ∃ k' u', find_email e m = Some (k', u').
Proof.
  intros Hk He. destruct (find_email e m) as [[k' u'] |] eqn:H; [eauto |].
  by destruct (find_email_None m e k u H Hk).
Qed.

(** The one row with a given e-mail, once it is inserted where no row had
    that e-mail. *)
Lemma find_email_insert (m : gmap string User) k u :
  find_email (email u) m = None →
  find_email (email u) (<[k := u]> m) = Some (k, u).
Proof.
  intros Hnone.
  destruct (find_email_found (<[k := u]> m) (email u) k u) as (k' & u' & H);
    [apply lookup_insert_eq | done |].
  rewrite H. apply find_email_Some in H as [Hk' He'].
  destruct (decide (k = k')) as [<- | Hne].
  - rewrite lookup_insert_eq in Hk'. by simplify_eq.
  - rewrite lookup_insert_ne in Hk' by done.
    by destruct (find_email_None m (email u) k' u' Hnone Hk').
Qed.

Lemma toLowerCase_empty s : toLowerCase s = "" → s = "".
Proof. by destruct s. Qed.

Section Accounts.

Variable bcrypt_hash : Env → string → string.
Variable bcrypt_compare : string → string → bool.
Variable totp_check : Z → string → string → bool.

(** The row [register] creates. *)
Lemma register_resolves env email_ password displayName_ age_ db user db' :
  register bcrypt_hash env email_ password displayName_ age_ db = Some (Return user, db') →
  ∃ row,
    row = {| id := uuid env; email := toLowerCase email_;
             passwordHash := bcrypt_hash env password; displayName := displayName_;
             age := match age_ with Some a => a | None => 18%Z end;
             bio := ""; tags := []; photoUrl := "";
             lat := None; lng := None; stripeCustomerId := None;
             twoFAEnabled := false; totpSecret := None; reputation := 0;
             isVerified := false; createdAt := now env; updatedAt := now env |} ∧
    email_ ≠ "" ∧ password ≠ "" ∧
    find_email (toLowerCase email_) (users db) = None ∧
    users db !! uuid env = None ∧
    user = sanitizeUser (user_object row) ∧
    db' = set_users (insert (uuid env) row) db.
Proof.
  unfold register.
  destruct (String.eqb email_ "") eqn:He; [done |].
  destruct (String.eqb password "") eqn:Hp; [done |].
  cbn [orb]. destruct (String.eqb displayName_ ""); [done |].
  destruct (_ <? _)%nat; [done |]. destruct (_ <? _)%Z; [done |].
  unfold bind at 1. unfold user_findUnique_email.
  destruct (find_email (toLowerCase email_) (users db)) eqn:Hfind; [done |].
  cbn [fmap option_fmap option_map].
  unfold bind, user_create. cbn [id email].
  destruct (users db !! uuid env) eqn:Hid; [done |]. rewrite Hfind.
  unfold ret. intros [= <- <-].
  apply String.eqb_neq in He, Hp.
  eexists. split; [reflexivity |]. repeat split; try done.
Qed.



End Accounts.




Section LoginFlow.

Variable bcrypt_hash : Env → string → string.
Variable bcrypt_compare : string → string → bool.
Variable totp_check : Z → string → string → bool.
Variable jwt_parse : string → Jwt.

(** What stands behind a [login] that resolved with a user and a pair. *)
Lemma login_resolves env email_ password did plat agent db obj tokens db1 :
  login bcrypt_compare env email_ password did plat agent db =
    Some (Return (LoggedIn obj tokens), db1) →
  ∃ k user,
    find_email (toLowerCase email_) (users db) = Some (k, user) ∧
    bcrypt_compare password (passwordHash user) = true ∧
    sessions db !! uuid env = None ∧
    obj = sanitizeUser (user_object user) ∧
    tokens = new_pair env (id user) did ∧
    sessions db1 = <[uuid env := new_session env (id user) did]> (sessions db) ∧
    users db1 = users db ∧
    devices db1 !! (id user, did) =
      Some {| platform := plat; userAgent := agent; lastSeenAt := now env |}.
Proof.
  unfold login. destruct (_ || _); [done |].
  unfold bind at 1. unfold user_findUnique_email.
  destruct (find_email (toLowerCase email_) (users db)) as [[k user] |] eqn:Hfind; [| done].
  cbn [fmap option_fmap option_map snd].
  destruct (bcrypt_compare password (passwordHash user)) eqn:Hpw; [| done].
  cbn [negb]. unfold bind at 1. unfold device_upsert.
  destruct (_ && _); [done |].
  unfold bind. rewrite on_sessions_issueTokens. cbn [sessions set_devices].
  destruct (sessions db !! uuid env) eqn:Hfree; [done |].
  unfold ret. intros [= <- <- <-].
  exists k, user. repeat split; try done.
  cbn [devices set_sessions set_devices].
  destruct (devices db !! (id user, did)); apply lookup_insert_eq.
Qed.



(** X15. The refresh token [login] hands out rotates, for the same
    principal and device, as long as it has not expired (thirty days) and
    the drawn identifier is unused; from its expiry on it is rejected as
    unauthorized and the table is left as it is. *)
Theorem login_token_rotates_until_expiry
    env email_ password did plat agent db obj tokens db1 fuel env' :
  login bcrypt_compare env email_ password did plat agent db =
    Some (Return (LoggedIn obj tokens), db1) →
  sessions db1 !! uuid env' = None →
  ∃ uid,
    obj !! "id" = Some (JsString uid) ∧
    if (seconds (now env') <? seconds (now env) + REFRESH_TTL_SECONDS)%Z then
      ∃ table,
        rotateRefresh fuel env' (Some (refreshToken tokens)) (sessions db1) =
          Some (Return (new_pair env' uid did), table) ∧
        table !! uuid env' = Some (new_session env' uid did) ∧
        table !! uuid env = Some (retire (uuid env') (new_session env uid did))
    else
      rotateRefresh fuel env' (Some (refreshToken tokens)) (sessions db1) =
        Some (Throw (UnauthorizedError "Invalid or expired refresh token"), sessions db1).
Proof.
  intros Hlogin Hfree.
  apply login_resolves in Hlogin
    as (k & user & _ & _ & Hnew & -> & -> & Hsessions & _ & _).
  exists (id user). split.
  { rewrite sanitizeUser_keeps by done. reflexivity. }
  rewrite rotateRefresh_unfold. unfold jwt_verify.
  cbn [new_pair refreshToken jwt_sign signed exp claims andb].
  destruct (seconds (now env') <? seconds (now env) + REFRESH_TTL_SECONDS)%Z; [| done].
  rewrite Hsessions, lookup_insert_eq. cbn [new_session revoked].
  rewrite <- Hsessions, Hfree.
  eexists. split; [reflexivity |].
  assert (uuid env ≠ uuid env') as Hne.
  { intros E. rewrite Hsessions, <- E, lookup_insert_eq in Hfree. done. }
  split.
  - rewrite lookup_insert_ne by done. apply lookup_insert_eq.
  - apply lookup_insert_eq.
Qed.

(** X16. The second-factor challenge is not consumed: a wrong code is
    rejected with [UnauthorizedError] and changes nothing, and the same
    temp token, while it has not expired, completes a login each time a
    passing code comes with it, creating one session per use. *)
Theorem challenge_is_not_consumed
    env uid user secret db wrong env0 code1 env1 code2 env2 did :
  users db !! uid = Some user → id user = uid →
  twoFAEnabled user = true → totpSecret user = Some secret → secret ≠ "" →
  wrong ≠ "" → code1 ≠ "" → code2 ≠ "" →
  totp_check (now env0) wrong secret = false →
  totp_check (now env1) code1 secret = true →
  totp_check (now env2) code2 secret = true →
  (seconds (now env0) < seconds (now env) + TEMP_TTL)%Z →
  (seconds (now env1) < seconds (now env) + TEMP_TTL)%Z →
  (seconds (now env2) < seconds (now env) + TEMP_TTL)%Z →
  sessions db !! uuid env1 = None → sessions db !! uuid env2 = None →
  uuid env1 ≠ uuid env2 →
  ∃ db1 db2,
    verify2FA totp_check env0 (Some (signTemp env uid)) wrong did db =
      Some (Throw (UnauthorizedError "Invalid 2FA code"), db) ∧
    verify2FA totp_check env1 (Some (signTemp env uid)) code1 did db =
      Some (Return {| auth_user := sanitizeUser (user_object user);
                      auth_tokens := new_pair env1 uid did |}, db1) ∧
    verify2FA totp_check env2 (Some (signTemp env uid)) code2 did db1 =
      Some (Return {| auth_user := sanitizeUser (user_object user);
                      auth_tokens := new_pair env2 uid did |}, db2) ∧
    sessions db2 !! uuid env1 = Some (new_session env1 uid did) ∧
    sessions db2 !! uuid env2 = Some (new_session env2 uid did).
Proof.
  intros Hu Hid H2fa Hsecret Hne Hw Hc1 Hc2 Hbad Hok1 Hok2 Ht0 Ht1 Ht2 Hf1 Hf2 Hdiff.
  apply String.eqb_neq in Hne, Hw, Hc1, Hc2.
  assert (∀ env' code db0,
            String.eqb code "" = false →
            (seconds (now env') < seconds (now env) + TEMP_TTL)%Z →
            users db0 !! uid = Some user →
            verify2FA totp_check env' (Some (signTemp env uid)) code did db0 =
            if totp_check (now env') code secret then
              match sessions db0 !! uuid env' with
              | None =>
                  Some (Return {| auth_user := sanitizeUser (user_object user);
                                  auth_tokens := new_pair env' uid did |},
                        set_sessions (<[uuid env' := new_session env' uid did]> (sessions db0))
                          db0)
              | Some _ => Some (Throw (PrismaError "P2002"), db0)
              end
            else Some (Throw (UnauthorizedError "Invalid 2FA code"), db0)) as Hrun.
  { intros env' code db0 Hcode Httl Hu0. unfold verify2FA. rewrite Hcode.
    assert (jwt_verify (signTemp env uid) (now env') = Some (TempClaims uid)) as ->.
    { unfold jwt_verify, signTemp, jwt_sign; cbn [signed exp claims andb].
      apply Z.ltb_lt in Httl. by rewrite Httl. }
    unfold bind at 1. unfold user_findUnique_id.
    rewrite Hu0, H2fa, Hsecret. cbn [truthy]. rewrite Hne.
    change (default "" (Some secret)) with secret. cbn [negb orb].
    destruct (totp_check (now env') code secret); cbn [negb]; [| done].
    unfold bind. rewrite on_sessions_issueTokens, Hid.
    by destruct (sessions db0 !! uuid env'). }
  eexists _, _. split; [by rewrite Hrun, Hbad |].
  split; [by rewrite Hrun, Hok1, Hf1 |].
  split.
  - rewrite Hrun by done. rewrite Hok2. cbn [sessions set_sessions].
    rewrite lookup_insert_ne by done. by rewrite Hf2.
  - cbn [sessions set_sessions]. split.
    + rewrite lookup_insert_ne by done. apply lookup_insert_eq.
    + apply lookup_insert_eq.
Qed.

(** X9. A token is only good for what it was signed for:
    [rotateRefresh] rejects access and temp tokens, [verify2FA] rejects
    access and refresh tokens, and [authenticate] rejects refresh and
    temp tokens, each with an [UnauthorizedError] and without touching
    the database. *)
Theorem token_types_are_not_interchangeable :
  (∀ fuel env token db,
     payload_jti (claims token) = None →
     ∃ msg, rotateRefresh fuel env (Some token) db =
            Some (Throw (UnauthorizedError msg), db)) ∧
  (∀ env token code did db,
     code ≠ "" → (∀ sub, claims token ≠ TempClaims sub) →
     ∃ msg, verify2FA totp_check env (Some token) code did db =
            Some (Throw (UnauthorizedError msg), db)) ∧
  (∀ env t,
     (∀ sub, claims (jwt_parse t) ≠ AccessClaims sub) →
     ∃ msg, authenticate jwt_parse env (Some ("Bearer " ++ t)) =
            Throw (UnauthorizedError msg)).
Proof.
  split; [| split].
  - intros fuel env token db Hnone. rewrite rotateRefresh_unfold.
    destruct (jwt_verify token (now env)) as [p |] eqn:Hv; [| by eexists].
    apply jwt_verify_claims in Hv. subst p.
    destruct (claims token); simplify_eq/=; by eexists.
  - intros env token code did db Hcode Hnot. apply String.eqb_neq in Hcode.
    unfold verify2FA. rewrite Hcode.
    destruct (jwt_verify token (now env)) as [p |] eqn:Hv; [| by eexists].
    apply jwt_verify_claims in Hv. subst p.
    destruct (claims token) as [sub | sub jti d | sub] eqn:Hc; try by eexists.
    by destruct (Hnot sub).
  - intros env t Hnot. rewrite authenticate_bearer.
    destruct (String.eqb t ""); [by eexists |].
    unfold jwt_verify_result. destruct (negb _); [by eexists |].
    destruct (_ <? _)%Z; [| by eexists].
    destruct (claims (jwt_parse t)) as [sub | sub jti d | sub] eqn:Hc; try by eexists.
    by destruct (Hnot sub).
Qed.

End LoginFlow.



Lemma login_token_rotates_until_expiry_witness :
  ∃ uid,
    sanitizeUser (user_object Scenario.dave) !! "id" = Some (JsString uid) ∧
    if (seconds (now Scenario.env_code) <?
        seconds (now Scenario.env_login) + REFRESH_TTL_SECONDS)%Z then
      ∃ table,
        rotateRefresh 0 Scenario.env_code
          (Some (refreshToken (new_pair Scenario.env_login "u-dave" "D7")))
          (<["s1" := new_session Scenario.env_login "u-dave" "D7"]> ∅) =
          Some (Return (new_pair Scenario.env_code uid "D7"), table) ∧
        table !! uuid Scenario.env_code = Some (new_session Scenario.env_code uid "D7") ∧
        table !! uuid Scenario.env_login =
          Some (retire (uuid Scenario.env_code) (new_session Scenario.env_login uid "D7"))
    else
      rotateRefresh 0 Scenario.env_code
        (Some (refreshToken (new_pair Scenario.env_login "u-dave" "D7")))
        (<["s1" := new_session Scenario.env_login "u-dave" "D7"]> ∅) =
        Some (Throw (UnauthorizedError "Invalid or expired refresh token"),
              <["s1" := new_session Scenario.env_login "u-dave" "D7"]> ∅).
Proof.
  refine (login_token_rotates_until_expiry Scenario.compare Scenario.env_login
           "dave@example.com" "hunter22" "D7" "android" "agent" Scenario.accounts
           (sanitizeUser (user_object Scenario.dave))
           (new_pair Scenario.env_login "u-dave" "D7")
           {| users := users Scenario.accounts;
              devices := <[("u-dave", "D7") :=
                             {| platform := "android"; userAgent := "agent";
                                lastSeenAt := 10000 |}]> ∅;
              sessions := <["s1" := new_session Scenario.env_login "u-dave" "D7"]> ∅;
              subscriptions := ∅ |} 0 Scenario.env_code _ _).
  - vm_compute. reflexivity.
  - vm_compute. reflexivity.
Defined.

Lemma challenge_is_not_consumed_witness :
  ∃ db1 db2,
    verify2FA Scenario.check {| now := 20000; uuid := "s0" |}
      (Some (signTemp Scenario.env_login "u-carol")) "000000" "D1" Scenario.accounts =
      Some (Throw (UnauthorizedError "Invalid 2FA code"), Scenario.accounts) ∧
    verify2FA Scenario.check Scenario.env_code
      (Some (signTemp Scenario.env_login "u-carol")) "492039" "D1" Scenario.accounts =
      Some (Return {| auth_user := sanitizeUser (user_object Scenario.carol);
                      auth_tokens := new_pair Scenario.env_code "u-carol" "D1" |}, db1) ∧
    verify2FA Scenario.check {| now := 50000; uuid := "s3" |}
      (Some (signTemp Scenario.env_login "u-carol")) "492039" "D1" db1 =
      Some (Return {| auth_user := sanitizeUser (user_object Scenario.carol);
                      auth_tokens :=
                        new_pair {| now := 50000; uuid := "s3" |} "u-carol" "D1" |}, db2) ∧
    sessions db2 !! "s2" = Some (new_session Scenario.env_code "u-carol" "D1") ∧
    sessions db2 !! "s3" =
      Some (new_session {| now := 50000; uuid := "s3" |} "u-carol" "D1").
Proof.
  apply (challenge_is_not_consumed Scenario.check Scenario.env_login "u-carol"
           Scenario.carol "JBSWY3DPEHPK3PXP" Scenario.accounts "000000"
           {| now := 20000; uuid := "s0" |} "492039" Scenario.env_code
           "492039" {| now := 50000; uuid := "s3" |} "D1");
    try done; vm_compute; reflexivity.
Defined.

(** X17. [rotateRefresh] rejects a presented token in two ways only:
    with an [UnauthorizedError], or, when the identifier drawn for the
    new session is already taken, with the Prisma client's unique
    constraint error, and then the table is as it was, so that the
    presented token has not been used up. *)
Theorem rotateRefresh_rejects_as_unauthorized_or_collision fuel env t db e db' :
  rotateRefresh fuel env (Some t) db = Some (Throw e, db') →
  (∃ msg, e = UnauthorizedError msg ∧ msg ≠ "") ∨
  (e = PrismaError "P2002" ∧ db' = db ∧ is_Some (db !! uuid env) ∧
   ∃ sub jti did s,
     jwt_verify t (now env) = Some (RefreshClaims sub jti did) ∧
     db !! jti = Some s ∧ revoked s = false).
Proof.
  rewrite rotateRefresh_unfold.
  destruct (jwt_verify t (now env)) as [[sub | sub jti did | sub] |];
    try (intros [= <- <-]; left; by eexists).
  destruct (db !! jti) as [s |] eqn:Hj; [| intros [= <- <-]; left; by eexists].
  destruct (revoked s) eqn:R.
  - destruct (revokeFamily fuel jti db) as [[r db1] |]; [| done].
    intros [= <- <-]. left. by eexists.
  - destruct (db !! uuid env) eqn:Hnew; [| done]. intros [= <- <-]. right.
    repeat split; try done. by exists sub, jti, did, s.
Qed.

Lemma rotateRefresh_rejects_as_unauthorized_or_collision_witness :
  (∃ msg, UnauthorizedError "Token has been revoked" = UnauthorizedError msg ∧ msg ≠ "") ∨
  (UnauthorizedError "Token has been revoked" = PrismaError "P2002" ∧
   Scenario.logged_out = Scenario.logged_out ∧
   is_Some (Scenario.logged_out !! uuid Scenario.env3) ∧
   ∃ sub jti did s,
     jwt_verify Scenario.R1 (now Scenario.env3) = Some (RefreshClaims sub jti did) ∧
     Scenario.logged_out !! jti = Some s ∧ revoked s = false).
Proof.
  apply (rotateRefresh_rejects_as_unauthorized_or_collision 1 Scenario.env3 Scenario.R1
           Scenario.logged_out).
  vm_compute. reflexivity.
Defined.

(* ===================================================================== *)
(** * Changing the password, reading the profile, and the cascade's reach *)
(* ===================================================================== *)

Section ChangePassword.

Variable bcrypt_hash : Env → string → string.
Variable bcrypt_compare : string → string → bool.


End ChangePassword.


(** X19. [getUserById] reads without writing: for an unknown id it fails
    with [UnauthorizedError]; for a stored user it returns the row's
    object with the subscription (or [null]) added, every property other
    than [passwordHash] and [totpSecret] as stored. *)
Theorem getUserById_returns_the_rest uid db :
  match users db !! uid with
  | None => getUserById uid db = Some (Throw (UnauthorizedError "User not found"), db)
  | Some user =>
      ∃ obj,
        getUserById uid db = Some (Return obj, db) ∧
        obj !! "subscription" = Some (nullable JsObj (subscriptions db !! uid)) ∧
        ∀ k, k ≠ "passwordHash" → k ≠ "totpSecret" → k ≠ "subscription" →
             obj !! k = user_object user !! k
  end.
Proof.
  unfold getUserById, bind, user_findUnique_id_include_subscription.
  destruct (users db !! uid) as [user |]; [| done].
  eexists. split; [reflexivity |]. split.
  - rewrite sanitizeUser_keeps by done. apply lookup_insert_eq.
  - intros k H1 H2 H3. rewrite sanitizeUser_keeps by done. by rewrite lookup_insert_ne.
Qed.

Lemma only_revokes_follows_back db db' j k :
  only_revokes db db' → follows db' j k → follows db j k.
Proof.
  intros Hrev Hf. induction Hf as [j s Hj | j s next k Hj Hnext _ IH].
  - destruct (Hrev j) as [E | (s0 & E0 & _ & E')].
    + eapply follows_here. by rewrite <- E.
    + by eapply follows_here.
  - destruct (Hrev j) as [E | (s0 & E0 & _ & E')].
    + eapply follows_next; [by rewrite <- E | done | done].
    + rewrite Hj in E'. simplify_eq.
      eapply follows_next; [done | | done]. by rewrite <- Hnext.
Qed.

(** X20. The cascade reaches the chain and nothing else: [revokeFamily]
    leaves every row that is not met by following [replacedBy] from its
    starting row exactly as it was, adds and removes no row, and on an
    unknown identifier does nothing. *)
Theorem revokeFamily_touches_only_the_chain fuel : ∀ jti db r db',
  revokeFamily fuel jti db = Some (r, db') →
  (∀ k, ¬ follows db jti k → db' !! k = db !! k) ∧
  (∀ k, is_Some (db' !! k) ↔ is_Some (db !! k)) ∧
  (db !! jti = None → db' = db).
Proof.
  induction fuel as [| fuel IH]; intros jti db r db' H; [done |].
  rewrite revokeFamily_S in H.
  destruct (db !! jti) as [s |] eqn:Hj; [| by simplify_eq].
  assert (∀ k, is_Some ((<[jti := mark_revoked s]> db) !! k) ↔ is_Some (db !! k)) as Hdom.
  { intros k. rewrite lookup_insert_is_Some. split.
    - intros [<- | [_ ?]]; [by rewrite Hj | done].
    - intros Hk. destruct (decide (jti = k)); [by left | by right]. }
  assert (∀ k, ¬ follows db jti k → (<[jti := mark_revoked s]> db) !! k = db !! k) as Hstep.
  { intros k Hk. apply lookup_insert_ne. intros <-. apply Hk. by eapply follows_here. }
  destruct (replacedBy s) as [next |] eqn:Hnext.
  - apply IH in H as (Hframe & Hsome & _). split; [| split; [| done]].
    + intros k Hk. rewrite Hframe; [by apply Hstep |].
      intros Hf. apply Hk. eapply follows_next; [exact Hj | exact Hnext |].
      eapply only_revokes_follows_back; [| exact Hf]. by apply only_revokes_mark.
    + intros k. by rewrite Hsome.
  - simplify_eq. done.
Qed.

Lemma revokeFamily_touches_only_the_chain_witness :
  (∀ k, ¬ follows Scenario.rotated "r1" k →
        (<["r2" := mark_revoked (new_session Scenario.env2 "A" "D1")]> Scenario.rotated) !! k =
        Scenario.rotated !! k) ∧
  (∀ k, is_Some ((<["r2" := mark_revoked (new_session Scenario.env2 "A" "D1")]>
                    Scenario.rotated) !! k) ↔ is_Some (Scenario.rotated !! k)) ∧
  (Scenario.rotated !! "r1" = None →
   <["r2" := mark_revoked (new_session Scenario.env2 "A" "D1")]> Scenario.rotated =
   Scenario.rotated).
Proof.
  apply (revokeFamily_touches_only_the_chain 2 "r1" Scenario.rotated (Return ())).
  vm_compute. reflexivity.
Defined.
